(** * The conversational relay pipeline of lyra-app

    Two programs are embedded here:

    - the Relay Service, the Deno edge function [lyra-chat]
      (the [Deno.serve] handler), in [Module Relay];
    - the Conversation Controller, the React component [Chat] with its
      [sendMessage] and [loadChatHistory], in [Module Chat].

    Both are written in a dynamically typed language whose values cross
    JSON boundaries, so a small model of JavaScript values comes first. *)

From Stdlib Require Import String Ascii List ZArith Bool Lia Permutation.
Import ListNotations.
Local Open Scope string_scope.

(** ** JavaScript values, truthiness, property reads *)

Module Js.

(** Values as [JSON.parse] and property reads produce them.  A finite
    number is kept as an integer (the programs test numbers for
    truthiness and pass them on); [Infinite] is the number [JSON.parse]
    gives for a literal beyond the range of a double, [1e400] or
    [-1e400]. *)
#[warnings="-register-all"]
Inductive value : Type :=
| Undefined
| Null
| Bool (b : bool)
| Num (z : Z)
| Infinite (negative : bool)
| Str (s : string)
| Arr (items : list value)
| Obj (fields : list (string * value)).

(** [ToBoolean]: what [!v] and [v || w] look at. *)
Definition truthy (v : value) : bool :=
  match v with
  | Undefined | Null => false
  | Bool b => b
  | Num z => negb (z =? 0)%Z
  | Infinite _ => true
  | Str s => negb (s =? "")
  | Arr _ | Obj _ => true
  end.

(** [a || b] *)
Definition or (a b : value) : value := if truthy a then a else b.

Fixpoint lookup (key : string) (fields : list (string * value)) : value :=
  match fields with
  | [] => Undefined
  | (k, v) :: rest => if k =? key then v else lookup key rest
  end.

(** [v.key], for the keys these programs read ([message], [userId],
    [response]), none of which lives on a prototype: own fields for an
    object, [undefined] for any other value that can be boxed, and a
    TypeError ([None]) for [null] and [undefined]. *)
Definition get (v : value) (key : string) : option value :=
  match v with
  | Undefined | Null => None
  | Obj fields => Some (lookup key fields)
  | Bool _ | Num _ | Infinite _ | Str _ | Arr _ => Some Undefined
  end.

(** [JSON.parse(JSON.stringify(v))]: what the other side reads of a
    value that is sent as JSON.  A number that is not finite is written
    as [null]; so is [undefined] inside an array, while a field that
    holds [undefined] is left out. *)
Fixpoint wire (v : value) : value :=
  match v with
  | Undefined => Null
  | Null => Null
  | Bool b => Bool b
  | Num z => Num z
  | Infinite _ => Null
  | Str s => Str s
  | Arr items => Arr (map wire items)
  | Obj fields =>
      Obj ((fix sent (fs : list (string * value)) : list (string * value) :=
              match fs with
              | [] => []
              | (k, Undefined) :: rest => sent rest
              | (k, x) :: rest => (k, wire x) :: sent rest
              end) fields)
  end.

(** A value that holds no [undefined] and no number that is not finite,
    at any depth. *)
Fixpoint plain (v : value) : bool :=
  match v with
  | Undefined | Infinite _ => false
  | Null | Bool _ | Num _ | Str _ => true
  | Arr items => forallb plain items
  | Obj fields =>
      (fix all (fs : list (string * value)) : bool :=
         match fs with
         | [] => true
         | (_, x) :: rest => plain x && all rest
         end) fields
  end.


End Js.

(** ** Exceptions

    [try { ... } catch (error) { ... }] bodies are written in an error
    monad; an exception carries its [message]. *)

Inductive result (A : Type) : Type :=
| Ok (a : A)
| Throw (message : string).
Arguments Ok {A} a.
Arguments Throw {A} message.

Definition bind {A B : Type} (r : result A) (k : A -> result B) : result B :=
  match r with
  | Ok a => k a
  | Throw m => Throw m
  end.

Notation "'let*' x ':=' r 'in' k" := (bind r (fun x => k))
  (at level 10, x name, r at level 100, k at level 200, only parsing).

(** The message of the TypeError of a rejected property read.  The
    wording belongs to the engine and is not part of what is proved. *)
Definition type_error (key : string) : string :=
  "Cannot read properties of null (reading '" ++ key ++ "')".

Definition read (v : Js.value) (key : string) : result Js.value :=
  match Js.get v key with
  | Some x => Ok x
  | None => Throw (type_error key)
  end.

(** ** Relay Service *)

Module Relay.

Definition corsHeaders : list (string * string) :=
  [ ("Access-Control-Allow-Origin", "*");
    ("Access-Control-Allow-Methods", "GET, POST, PUT, DELETE, OPTIONS");
    ("Access-Control-Allow-Headers",
     "Content-Type, Authorization, X-Client-Info, Apikey") ].

Definition N8N_WEBHOOK_URL : string :=
  "https://zuefer-kilincarslan-n8n.zk-ai.agency/webhook/lyra".

(** An incoming request: its method and what [await req.json()] gives. *)
Record Request : Type := {
  method : string;
  json : result Js.value
}.

(** An outgoing response.  [body] is the value handed to
    [JSON.stringify], or [None] for the [null] body of the preflight. *)
Record Response : Type := {
  status : Z;
  headers : list (string * string);
  body : option Js.value
}.

Definition jsonHeaders : list (string * string) :=
  corsHeaders ++ [("Content-Type", "application/json")].

(** The one outbound call, [fetch(N8N_WEBHOOK_URL, ...)]. *)
Record OutboundCall : Type := {
  url : string;
  call_method : string;
  call_headers : list (string * string);
  call_body : Js.value
}.

(** What the external endpoint answers: [fetch] rejects, or resolves to
    a response with its [ok] flag and its body read as text or JSON. *)
Record Upstream : Type := {
  ok : bool;
  text : result string;
  upstream_json : result Js.value
}.

Inductive FetchResult : Type :=
| Rejected (message : string)
| Resolved (r : Upstream).

(** A [console.error] call with its arguments. *)
Definition LogLine : Type := list string.

(** The service's own configuration and clock. *)
Record Env : Type := {
  WEBHOOK_AUTH_TOKEN : option string;   (* Deno.env.get("WEBHOOK_AUTH_TOKEN") *)
  now : string                          (* new Date().toISOString() *)
}.

(** [!WEBHOOK_AUTH_TOKEN] *)
Definition token_missing (env : Env) : bool :=
  match WEBHOOK_AUTH_TOKEN env with
  | None => true
  | Some t => t =? ""
  end.

Definition missingFields : Response :=
  {| status := 400;
     headers := jsonHeaders;
     body := Some (Js.Obj [("error", Js.Str "Missing required fields")]) |}.

Definition configurationError : Response :=
  {| status := 500;
     headers := jsonHeaders;
     body := Some (Js.Obj
       [("success", Js.Bool false);
        ("response",
         Js.Str "Service configuration error. Please contact support.")]) |}.

Definition relayFailure : Response :=
  {| status := 502;
     headers := jsonHeaders;
     body := Some (Js.Obj
       [("success", Js.Bool false);
        ("response",
         Js.Str "Failed to process your message. Please try again.")]) |}.

Definition placeholder : string := "Message received and processed".

(** No status is given on this path: a [Response] defaults to 200. *)
Definition success (reply : Js.value) : Response :=
  {| status := 200;
     headers := jsonHeaders;
     body := Some (Js.Obj [("success", Js.Bool true); ("response", reply)]) |}.

Definition internalError (message : string) : Response :=
  {| status := 500;
     headers := jsonHeaders;
     body := Some (Js.Obj
       [("error", Js.Str "Internal server error");
        ("details", Js.Str message)]) |}.

Definition preflight : Response :=
  {| status := 200; headers := corsHeaders; body := None |}.

(** The [catch] of the handler. *)
Definition caught (r : result (list LogLine * Response))
  : list LogLine * Response :=
  match r with
  | Ok out => out
  | Throw m => ([["Error in lyra-chat function:"; m]], internalError m)
  end.

(** The handler after [await fetch(...)] has settled. *)
Definition after_fetch (n8nResponse : FetchResult)
  : result (list LogLine * Response) :=
  match n8nResponse with
  | Rejected m => Throw m
  | Resolved up =>
      if negb (ok up) then
        let* errorText := text up in
        Ok ([["n8n webhook failed:"; errorText]], relayFailure)
      else
        let* n8nData := upstream_json up in
        let* reply := read n8nData "response" in
        Ok ([], success (Js.or reply (Js.Str placeholder)))
  end.

(** A run of the handler either answers at once or suspends on the
    outbound call, to be resumed with what the call settles to. *)
Inductive Handler : Type :=
| Respond (log : list LogLine) (r : Response)
| Outbound (call : OutboundCall)
           (resume : FetchResult -> list LogLine * Response).

Definition outboundCall (token : string) (env : Env)
    (message userId : Js.value) : OutboundCall :=
  {| url := N8N_WEBHOOK_URL;
     call_method := "POST";
     call_headers := [("Content-Type", "application/json");
                      ("WEBHOOK_AUTH_TOKEN", token)];
     call_body := Js.Obj [("message", message);
                          ("userId", userId);
                          ("timestamp", Js.Str (now env))] |}.

(** The [Deno.serve] handler. *)
Definition serve (env : Env) (req : Request) : Handler :=
  if method req =? "OPTIONS" then Respond [] preflight
  else
    match (let* parsed := json req in
           let* message := read parsed "message" in
           let* userId := read parsed "userId" in
           Ok (message, userId)) with
    | Throw m => Respond (fst (caught (Throw m))) (snd (caught (Throw m)))
    | Ok (message, userId) =>
        if negb (Js.truthy message) || negb (Js.truthy userId) then
          Respond [] missingFields
        else
          match WEBHOOK_AUTH_TOKEN env with
          | None =>
              Respond [["WEBHOOK_AUTH_TOKEN is not configured"]]
                      configurationError
          | Some token =>
              if token =? "" then
                Respond [["WEBHOOK_AUTH_TOKEN is not configured"]]
                        configurationError
              else
                Outbound (outboundCall token env message userId)
                         (fun settled => caught (after_fetch settled))
          end
    end.

(** The body of a response as the client reads it. *)
Definition written (r : Response) : option Js.value :=
  option_map Js.wire (body r).

(** The body of the outbound call as the endpoint reads it. *)
Definition forwarded (call : OutboundCall) : Js.value :=
  Js.wire (call_body call).

(** The outbound calls a run issues. *)
Definition outbound_calls (h : Handler) : list OutboundCall :=
  match h with
  | Respond _ _ => []
  | Outbound call _ => [call]
  end.

(** The response of a run, given what the outbound call would settle to. *)
Definition answer (h : Handler) (settled : FetchResult) : Response :=
  match h with
  | Respond _ r => r
  | Outbound _ resume => snd (resume settled)
  end.

Definition logged (h : Handler) (settled : FetchResult) : list LogLine :=
  match h with
  | Respond log _ => log
  | Outbound _ resume => fst (resume settled)
  end.

(** *** Sample requests, configurations and upstream answers *)

Definition post (b : Js.value) : Request := {| method := "POST"; json := Ok b |}.

Definition hello : Js.value :=
  Js.Obj [("message", Js.Str "hello"); ("userId", Js.Str "u1")].

Definition unconfigured : Env :=
  {| WEBHOOK_AUTH_TOKEN := None; now := "2025-12-26T16:04:21.000Z" |}.

Definition configured : Env :=
  {| WEBHOOK_AUTH_TOKEN := Some "s3cret"; now := "2025-12-26T16:04:21.000Z" |}.

(** An upstream answer with a success status and the given body. *)
Definition upstream_ok (raw : string) (parsed : result Js.value) : FetchResult :=
  Resolved {| ok := true; text := Ok raw; upstream_json := parsed |}.

End Relay.

(** ** Conversation Controller *)

Module Chat.

Local Open Scope list_scope.

(** A row of [chat_messages] as the component holds it.  The fields are
    those of the [tempMessage] literal and of the table in the
    migration, as the interface [ChatMessage] of [lib/supabase]
    declares them.  [response] is [string | null] by that
    declaration; at run time it holds what the relay's JSON carried, so
    it is a JavaScript value here.  [created_at] is an instant (the code
    carries its ISO-8601 rendering). *)
Record ChatMessage : Type := {
  id : string;
  user_id : string;
  message : string;
  response : Js.value;
  created_at : Z;
  metadata : list (string * Js.value)
}.

(** [{ ...m, response: r }] *)
Definition with_response (m : ChatMessage) (r : Js.value) : ChatMessage :=
  {| id := id m;
     user_id := user_id m;
     message := message m;
     response := r;
     created_at := created_at m;
     metadata := metadata m |}.

(** *** [String.prototype.trim]

    A string is held as its UTF-8 bytes.  [white_space] lists the code
    points that [trim] strips, the WhiteSpace and LineTerminator of the
    language: U+0009 to U+000D, U+0020, U+00A0, U+1680, U+2000 to
    U+200A, U+2028, U+2029, U+202F, U+205F, U+3000 and U+FEFF. *)

Definition bytes (codes : list nat) : string :=
  string_of_list_ascii (map ascii_of_nat codes).

Definition white_space : list string :=
  Eval cbv in
    map bytes
      [ [9]; [10]; [11]; [12]; [13]; [32];
        [194; 160];
        [225; 154; 128];
        [226; 128; 128]; [226; 128; 129]; [226; 128; 130]; [226; 128; 131];
        [226; 128; 132]; [226; 128; 133]; [226; 128; 134]; [226; 128; 135];
        [226; 128; 136]; [226; 128; 137]; [226; 128; 138];
        [226; 128; 168]; [226; 128; 169]; [226; 128; 175];
        [226; 129; 159];
        [227; 128; 128];
        [239; 187; 191] ]%nat.

Definition reverse (s : string) : string :=
  string_of_list_ascii (rev (list_ascii_of_string s)).

Fixpoint drop_prefix (p s : string) : option string :=
  match p, s with
  | EmptyString, _ => Some s
  | String a p', String b s' =>
      if Ascii.eqb a b then drop_prefix p' s' else None
  | String _ _, EmptyString => None
  end.

(** [s] without its first code point, when that is one of [table]. *)
Fixpoint strip (table : list string) (s : string) : option string :=
  match table with
  | [] => None
  | w :: others =>
      match drop_prefix w s with
      | Some rest => Some rest
      | None => strip others s
      end
  end.

(** Stripping at the front while there is something to strip; [fuel]
    bounds the number of code points, the length of the string is
    enough. *)
Fixpoint strip_all (table : list string) (fuel : nat) (s : string) : string :=
  match fuel with
  | O => s
  | S n =>
      match strip table s with
      | Some rest => strip_all table n rest
      | None => s
      end
  end.

Definition trim_start (s : string) : string :=
  strip_all white_space (String.length s) s.

Definition trim_end (s : string) : string :=
  reverse (strip_all (map reverse white_space) (String.length s) (reverse s)).

Definition trim (s : string) : string := trim_end (trim_start s).

(** *** Component state: the four [useState] cells *)

Record State : Type := {
  messages : list ChatMessage;
  inputMessage : string;
  loading : bool;
  loadingHistory : bool
}.

(** *** The relay as the component sees it *)

(** A resolved [fetch]: the status and what [await response.json()] gives. *)
Record Reply : Type := {
  reply_status : Z;
  reply_json : result Js.value
}.

(** [response.ok] *)
Definition reply_ok (r : Reply) : bool :=
  ((200 <=? reply_status r) && (reply_status r <=? 299))%Z.

Inductive Fetched : Type :=
| FetchRejected (message : string)
| FetchResolved (r : Reply).

(** *** The History Store as the component sees it *)

(** The object given to [.insert(...)]. *)
Record InsertPayload : Type := {
  payload_user_id : string;
  payload_message : string;
  payload_response : Js.value
}.

(** What the store decides about an insert: it commits the row under an
    identifier and a time of its own, or it refuses. *)
Inductive Verdict : Type :=
| Commit (new_id : string) (at_time : Z)
| Refuse (error : string).

(** [{ data, error }] of the ordered read. *)
Record SelectResult : Type := {
  data : option (list ChatMessage);
  error : option string
}.

Fixpoint insert_by_created_at (r : ChatMessage) (rows : list ChatMessage)
  : list ChatMessage :=
  match rows with
  | [] => [r]
  | x :: rest =>
      if (created_at r <=? created_at x)%Z then r :: rows
      else x :: insert_by_created_at r rest
  end.

Definition order_by_created_at (rows : list ChatMessage) : list ChatMessage :=
  fold_right insert_by_created_at [] rows.

(** Modelled from the spec: the History Store behind
    [supabase.from('chat_messages')], whose client library and
    server are not part of the sources.  It "supports create and
    ordered-read of Exchange records scoped by owner identity" and is a
    "persistent append-only record of exchanges"; the defaults of the
    columns the insert leaves out are those of the migration
    ([gen_random_uuid()], [now()], ['{}']). *)
Definition store_insert (table : list ChatMessage) (p : InsertPayload)
    (new_id : string) (at_time : Z) : list ChatMessage * ChatMessage :=
  let row := {| id := new_id;
                user_id := payload_user_id p;
                message := payload_message p;
                response := payload_response p;
                created_at := at_time;
                metadata := [] |} in
  (table ++ [row], row).

(** Modelled from the spec: the ordered read of the History Store,
    [.select('*').eq('user_id', owner).order('created_at', {ascending: true})],
    served by the store that is not part of the sources: the owner's
    rows, oldest first. *)
Definition store_select (table : list ChatMessage) (owner : string)
  : list ChatMessage :=
  order_by_created_at (filter (fun r => user_id r =? owner) table).

(** *** Effects the component issues *)

Inductive Effect : Type :=
| RelayCall (message userId : string)      (* fetch(apiUrl, { method: 'POST', ... }) *)
| StoreInsert (p : InsertPayload)          (* .insert({...}).select().single() *)
| StoreSelect (owner : string)             (* .select('*').eq(...).order(...) *)
| ConsoleError (label detail : string).    (* console.error(label, error) *)

(** *** Suspended calls

    [sendMessage] suspends twice, at the relay call and at the store
    write; what it still needs when it resumes is kept here. *)
Inductive Sending : Type :=
| AwaitRelay (tempMessage : ChatMessage) (userMessage : string)
| AwaitInsert (tempMessage : ChatMessage) (p : InsertPayload).

(** One mounted [Chat] for one signed-in user, with its environment:
    the suspended [sendMessage] and [loadChatHistory] calls, the store's
    table and the effects issued so far. *)
Record Session : Type := {
  user : string;
  view : State;
  sending : list Sending;
  loads : list SelectResult;
  store : list ChatMessage;
  effects : list Effect
}.

Definition init (owner : string) (table : list ChatMessage) : Session :=
  {| user := owner;
     view := {| messages := [];
                inputMessage := "";
                loading := false;
                loadingHistory := true |};
     sending := [];
     loads := [];
     store := table;
     effects := [] |}.

Fixpoint remove_nth {A : Type} (n : nat) (l : list A) : list A :=
  match l, n with
  | [], _ => []
  | _ :: rest, O => rest
  | x :: rest, S k => x :: remove_nth k rest
  end.

Fixpoint set_nth {A : Type} (n : nat) (y : A) (l : list A) : list A :=
  match l, n with
  | [], _ => []
  | _ :: rest, O => y :: rest
  | x :: rest, S k => x :: set_nth k y rest
  end.

(** *** The three [setMessages] updaters of [sendMessage] *)

(** [(prev) => [...prev, tempMessage]] *)
Definition append_provisional (tempMessage : ChatMessage)
    (prev : list ChatMessage) : list ChatMessage :=
  prev ++ [tempMessage].

(** [prev.filter((m) => m.id !== tempMessage.id)] *)
Definition filtered (tempMessage : ChatMessage) (prev : list ChatMessage)
  : list ChatMessage :=
  filter (fun m => negb (id m =? id tempMessage)) prev.

(** [(prev) => [...filtered, savedMessage]] *)
Definition replace_with_saved (tempMessage savedMessage : ChatMessage)
    (prev : list ChatMessage) : list ChatMessage :=
  filtered tempMessage prev ++ [savedMessage].

Definition errorText : string :=
  "Sorry, there was an error processing your message. Please try again.".

(** [(prev) => [...filtered, { ...tempMessage, response: '...' }]] *)
Definition replace_with_error (tempMessage : ChatMessage)
    (prev : list ChatMessage) : list ChatMessage :=
  filtered tempMessage prev ++ [with_response tempMessage (Js.Str errorText)].

(** *** [sendMessage]

    [uuid] and [now] are what [crypto.randomUUID()] and [new Date()]
    give this call. *)

(** The provisional entry of a call. *)
Definition provisional (uuid owner userMessage : string) (now : Z)
  : ChatMessage :=
  {| id := uuid;
     user_id := owner;
     message := userMessage;
     response := Js.Null;
     created_at := now;
     metadata := [] |}.

(** The provisional entry of a call made through the handler of the
    render that shows the session as it is. *)
Definition tempMessage (uuid : string) (now : Z) (s : Session) : ChatMessage :=
  provisional uuid (user s) (trim (inputMessage (view s))) now.

(** Up to the first [await]: the guard, the state updates and the call
    to the relay.  The handler is a closure of one render: [shown] is
    the state that render read, and the guard and [userMessage] look at
    [inputMessage] and [loading] as they were then; the updates go to
    the state as it is when the call is made. *)
Definition sendMessage (shown : State) (uuid : string) (now : Z)
    (s : Session) : Session :=
  if (trim (inputMessage shown) =? "")%string || loading shown then s
  else
    let userMessage := trim (inputMessage shown) in
    let tempMessage := provisional uuid (user s) userMessage now in
    {| user := user s;
       view := {| messages := append_provisional tempMessage
                                                 (messages (view s));
                  inputMessage := "";
                  loading := true;
                  loadingHistory := loadingHistory (view s) |};
       sending := sending s ++ [AwaitRelay tempMessage userMessage];
       loads := loads s;
       store := store s;
       effects := effects s ++ [RelayCall userMessage (user s)] |}.

(** The [catch] and the [finally] of [sendMessage], for the call
    suspended at position [n]. *)
Definition caught (tempMessage : ChatMessage) (error : string) (n : nat)
    (s : Session) : Session :=
  {| user := user s;
     view := {| messages := replace_with_error tempMessage (messages (view s));
                inputMessage := inputMessage (view s);
                loading := false;
                loadingHistory := loadingHistory (view s) |};
     sending := remove_nth n (sending s);
     loads := loads s;
     store := store s;
     effects := effects s ++ [ConsoleError "Error sending message:" error] |}.

(** From the settled [fetch] to [assistantResponse], or to the thrown
    error. *)
Definition assistantResponse (r : Fetched) : result Js.value :=
  match r with
  | FetchRejected m => Throw m
  | FetchResolved reply =>
      if negb (reply_ok reply) then Throw "Failed to send message"
      else
        let* data := reply_json reply in
        let* answer := read data "response" in
        Ok (Js.or answer (Js.Str "No response received"))
  end.

(** The relay call of the [n]th suspended [sendMessage] settles. *)
Definition relay_settled (n : nat) (r : Fetched) (s : Session) : Session :=
  match nth_error (sending s) n with
  | Some (AwaitRelay tempMessage userMessage) =>
      match assistantResponse r with
      | Throw e => caught tempMessage e n s
      | Ok reply =>
          let p := {| payload_user_id := user s;
                      payload_message := userMessage;
                      payload_response := reply |} in
          {| user := user s;
             view := view s;
             sending := set_nth n (AwaitInsert tempMessage p) (sending s);
             loads := loads s;
             store := store s;
             effects := effects s ++ [StoreInsert p] |}
      end
  | _ => s
  end.

(** The store write of the [n]th suspended [sendMessage] settles.
    [.single()] yields the saved row or an error, never neither. *)
Definition insert_settled (n : nat) (v : Verdict) (s : Session) : Session :=
  match nth_error (sending s) n with
  | Some (AwaitInsert tempMessage p) =>
      match v with
      | Refuse e => caught tempMessage e n s
      | Commit new_id at_time =>
          let (table, savedMessage) := store_insert (store s) p new_id at_time in
          {| user := user s;
             view := {| messages := replace_with_saved tempMessage savedMessage
                                      (messages (view s));
                        inputMessage := inputMessage (view s);
                        loading := false;
                        loadingHistory := loadingHistory (view s) |};
             sending := remove_nth n (sending s);
             loads := loads s;
             store := table;
             effects := effects s |}
      end
  | _ => s
  end.

(** *** [loadChatHistory] *)

(** Up to its [await]: the ordered read is issued; the store answers
    with the owner's rows, or with [failure]. *)
Definition loadChatHistory (failure : option string) (s : Session) : Session :=
  let answer :=
    match failure with
    | None => {| data := Some (store_select (store s) (user s)); error := None |}
    | Some e => {| data := None; error := Some e |}
    end in
  {| user := user s;
     view := view s;
     sending := sending s;
     loads := loads s ++ [answer];
     store := store s;
     effects := effects s ++ [StoreSelect (user s)] |}.

(** The [n]th suspended [loadChatHistory] resumes. *)
Definition history_settled (n : nat) (s : Session) : Session :=
  match nth_error (loads s) n with
  | Some answer =>
      match error answer with
      | Some e =>
          {| user := user s;
             view := {| messages := messages (view s);
                        inputMessage := inputMessage (view s);
                        loading := loading (view s);
                        loadingHistory := false |};
             sending := sending s;
             loads := remove_nth n (loads s);
             store := store s;
             effects := effects s
                        ++ [ConsoleError "Error loading chat history:" e] |}
      | None =>
          {| user := user s;
             view := {| messages := match data answer with
                                    | Some rows => rows
                                    | None => []
                                    end;
                        inputMessage := inputMessage (view s);
                        loading := loading (view s);
                        loadingHistory := false |};
             sending := sending s;
             loads := remove_nth n (loads s);
             store := store s;
             effects := effects s |}
      end
  | None => s
  end.

(** [onChange] of the input. *)
Definition setInputMessage (value : string) (s : Session) : Session :=
  {| user := user s;
     view := {| messages := messages (view s);
                inputMessage := value;
                loading := loading (view s);
                loadingHistory := loadingHistory (view s) |};
     sending := sending s;
     loads := loads s;
     store := store s;
     effects := effects s |}.

(** *** The session as a transition system *)

(** [Submit] is one call of [sendMessage] through the handler on the
    screen; [Submits] is several calls through that same handler before
    the component renders again, each with its own identifier and time. *)
Inductive Event : Type :=
| Typed (value : string)
| Submit (uuid : string) (now : Z)
| Submits (calls : list (string * Z))
| RelaySettled (n : nat) (r : Fetched)
| InsertSettled (n : nat) (v : Verdict)
| LoadStarted (failure : option string)
| LoadSettled (n : nat).

Definition step (s : Session) (e : Event) : Session :=
  match e with
  | Typed value => setInputMessage value s
  | Submit uuid now => sendMessage (view s) uuid now s
  | Submits calls =>
      fold_left (fun acc call => sendMessage (view s) (fst call) (snd call) acc)
                calls s
  | RelaySettled n r => relay_settled n r s
  | InsertSettled n v => insert_settled n v s
  | LoadStarted failure => loadChatHistory failure s
  | LoadSettled n => history_settled n s
  end.

Definition run (s : Session) (events : list Event) : Session :=
  fold_left step events s.

Definition reachable (s : Session) : Prop :=
  exists owner table events, s = run (init owner table) events.

(** At most one call per render. *)
Definition one_call (e : Event) : bool :=
  match e with
  | Submits calls => (length calls <=? 1)%nat
  | _ => true
  end.

(** Reached with never more than one call of [sendMessage] through the
    handler of one render. *)
Definition reachable_in_turn (s : Session) : Prop :=
  exists owner table events,
    forallb one_call events = true /\ s = run (init owner table) events.

(** One submission from start to finish with nothing else in between:
    the call through the handler on the screen, the relay's answer [r],
    and the store's verdict [v] should the call get as far as the store
    write. *)
Definition submission (uuid : string) (now : Z) (r : Fetched) (v : Verdict)
    (s : Session) : Session :=
  let n := length (sending s) in
  insert_settled n v (relay_settled n r (sendMessage (view s) uuid now s)).

(** The object a submission hands to [.insert(...)], as built from the
    session it started in. *)
Definition payload (s : Session) (answer : Js.value) : InsertPayload :=
  {| payload_user_id := user s;
     payload_message := trim (inputMessage (view s));
     payload_response := answer |}.

(** An uninterrupted [loadChatHistory] that the store answers. *)
Definition loadHistory (s : Session) : Session :=
  history_settled (length (loads s)) (loadChatHistory None s).

(** The ways a submission fails: [fetch] rejects, the relay answers with
    a status outside 200..299, its answer cannot be read (the body is
    not JSON, or is [null]), or the store refuses the write. *)
Inductive Failure (r : Fetched) (v : Verdict) : Prop :=
| network_failure (m : string) :
    r = FetchRejected m -> Failure r v
| http_failure (reply : Reply) :
    r = FetchResolved reply -> reply_ok reply = false -> Failure r v
| unreadable_answer (reply : Reply) (e : string) :
    r = FetchResolved reply -> reply_ok reply = true ->
    assistantResponse r = Throw e -> Failure r v
| store_failure (answer : Js.value) (e : string) :
    assistantResponse r = Ok answer -> v = Refuse e -> Failure r v.

(** A submission is pending: a [sendMessage] call is suspended. *)
Definition pending (s : Session) : Prop := sending s <> [].

(** The entries of a list that carry the identifier [i]. *)
Definition with_id (i : string) (l : list ChatMessage) : list ChatMessage :=
  filter (fun m => (id m =? i)%string) l.

(** *** Sample sessions *)

Definition row (i m : string) (r : Js.value) (t : Z) : ChatMessage :=
  {| id := i; user_id := "u1"; message := m; response := r;
     created_at := t; metadata := [] |}.

Definition typing : Session := run (init "u1" []) [Typed " hi "].

Definition waiting : Session := run typing [Submit "t1" 5].

Definition bad_gateway : Fetched :=
  FetchResolved {| reply_status := 502;
                   reply_json := Ok (Js.Obj
                     [("success", Js.Bool false);
                      ("response",
                       Js.Str "Failed to process your message. Please try again.")]) |}.

Definition replied (text : string) : Fetched :=
  FetchResolved {| reply_status := 200;
                   reply_json := Ok (Js.Obj
                     [("success", Js.Bool true); ("response", Js.Str text)]) |}.

End Chat.

(** ** The relay as the component reaches it *)

Module Wire.

(** The body of the component's [fetch]:
    [JSON.stringify({ message: userMessage, userId: user!.id })]. *)
Definition request (userMessage userId : string) : Relay.Request :=
  Relay.post (Js.Obj [("message", Js.Str userMessage);
                      ("userId", Js.Str userId)]).

(** What the component's [fetch] resolves to when the handler answered
    [r]: the status, and the body as [response.json()] reads it back
    from the text [JSON.stringify] wrote; the preflight's empty body
    does not read as JSON. *)
Definition delivered (r : Relay.Response) : Chat.Fetched :=
  Chat.FetchResolved
    {| Chat.reply_status := Relay.status r;
       Chat.reply_json := match Relay.written r with
                          | Some v => Ok v
                          | None => Throw "Unexpected end of JSON input"
                          end |}.

(** The component's call answered by the handler, the external endpoint
    settling to [settled]. *)
Definition relayed (env : Relay.Env) (settled : Relay.FetchResult)
    (userMessage userId : string) : Chat.Fetched :=
  delivered (Relay.answer (Relay.serve env (request userMessage userId))
                          settled).

End Wire.

(** ** What the [Chat] component renders *)

Module ChatView.
Import Chat.
Local Open Scope list_scope.

(** Every code point is white space (the empty string included). *)
Inductive Blank : string -> Prop :=
| blank_empty : Blank ""
| blank_more (w rest : string) :
    In w white_space -> Blank rest -> Blank (w ++ rest)%string.

(** One entry of the conversation: the prompt, and the reply bubble of
    [{msg.response && (...)}]. *)
Record Bubble : Type := {
  prompt : string;
  reply : option Js.value
}.

Definition bubble (msg : ChatMessage) : Bubble :=
  {| prompt := message msg;
     reply := if Js.truthy (response msg) then Some (response msg) else None |}.

(** The parts of the rendered tree that depend on the state. *)
Inductive Screen : Type :=
| LoadingChat
| Conversation (welcome : bool)          (* messages.length === 0 *)
               (bubbles : list Bubble)   (* messages.map(...) *)
               (typing : bool)           (* {loading && (...)} *)
               (inputDisabled : bool)    (* disabled={loading} *)
               (sendDisabled : bool).    (* disabled={loading || !inputMessage.trim()} *)

Definition render (st : State) : Screen :=
  if loadingHistory st then LoadingChat
  else
    Conversation
      (length (messages st) =? 0)%nat
      (map bubble (messages st))
      (loading st)
      (loading st)
      (loading st || (trim (inputMessage st) =? "")%string).

Definition is_relay_call (e : Effect) : bool :=
  match e with RelayCall _ _ => true | _ => false end.

Definition is_store_insert (e : Effect) : bool :=
  match e with StoreInsert _ => true | _ => false end.

(** A store write as [sendMessage] means it: for the session's user, a
    prompt that is not empty, a reply that is not empty. *)
Definition well_formed (owner : string) (p : InsertPayload) : Prop :=
  payload_user_id p = owner /\
  payload_message p <> ""%string /\
  Js.truthy (payload_response p) = true.

(** What is suspended and what was issued is well formed: every
    suspended call holds a prompt that is not empty, and every store
    write, issued or about to resume, is well formed. *)
Definition disciplined (s : Session) : Prop :=
  (forall p, In (StoreInsert p) (effects s) -> well_formed (user s) p) /\
  (forall t um, In (AwaitRelay t um) (sending s) -> um <> ""%string) /\
  (forall t p, In (AwaitInsert t p) (sending s) -> well_formed (user s) p).

End ChatView.

(** ** Rows of the other tables *)

Module Data.

Inductive Platform : Type := TikTok | Instagram | YouTube | X.

Record SocialAccount : Type := {
  id : string;
  user_id : string;
  platform : Platform;
  account_name : string;
  username : string;
  created_at : string;
  updated_at : string
}.

Inductive Status : Type := posted | scheduled | failed.

Definition status_eqb (a b : Status) : bool :=
  match a, b with
  | posted, posted | scheduled, scheduled | failed, failed => true
  | _, _ => false
  end.

Record Post : Type := {
  post_id : string;
  account_id : string;
  post_platform : string;
  content : string;
  status : Status;
  scheduled_date : option string;
  posted_date : option string;
  external_id : option string;
  post_created_at : string;
  post_updated_at : string
}.

(** [{ data, error }] of a query. *)
Record Selected (A : Type) : Type := {
  data : option (list A);
  error : option string
}.
Arguments data {A} _.
Arguments error {A} _.

(** [accountsData.find((acc) => acc.id === key)] *)
Definition find_account (key : string) (accountsData : list SocialAccount)
  : option SocialAccount :=
  List.find (fun acc => id acc =? key) accountsData.

End Data.

(** ** The [Posts] page *)

Module PostsPage.
Import Data.
Local Open Scope list_scope.

(** [{ ...post, account: accountsData.find(...) }] *)
Record PostWithAccount : Type := {
  post : Post;
  account : option SocialAccount
}.

Inductive Filter : Type := all | only (s : Status).

Record State : Type := {
  posts : list PostWithAccount;
  loading : bool;
  filter : Filter
}.

Inductive Effect : Type :=
| SelectAccounts (owner : string)            (* from('social_accounts')...eq('user_id', ...) *)
| SelectPosts (accountIds : list string)     (* from('posts')...in('account_id', accountIds) *)
| ConsoleError (label detail : string).

Definition with_account (accountsData : list SocialAccount) (p : Post)
  : PostWithAccount :=
  {| post := p; account := find_account (account_id p) accountsData |}.

(** [loadPosts], run without interruption: [accountsAnswer] and
    [postsAnswer] are what its two queries settle to, the second being
    looked at only if the second query is issued. *)
Definition loadPosts (owner : string)
    (accountsAnswer : Selected SocialAccount) (postsAnswer : Selected Post)
    (st : State) : State * list Effect :=
  match error accountsAnswer with
  | Some e =>
      ({| posts := posts st; loading := false; filter := filter st |},
       [SelectAccounts owner; ConsoleError "Error loading posts:" e])
  | None =>
      match data accountsAnswer with
      | None | Some [] =>
          ({| posts := []; loading := false; filter := filter st |},
           [SelectAccounts owner])
      | Some accountsData =>
          let accountIds := map id accountsData in
          match error postsAnswer with
          | Some e =>
              ({| posts := posts st; loading := false; filter := filter st |},
               [SelectAccounts owner; SelectPosts accountIds;
                ConsoleError "Error loading posts:" e])
          | None =>
              let postsData := match data postsAnswer with
                               | Some rows => rows
                               | None => []
                               end in
              ({| posts := map (with_account accountsData) postsData;
                  loading := false;
                  filter := filter st |},
               [SelectAccounts owner; SelectPosts accountIds])
          end
      end
  end.

(** [posts.filter((post) => filter === 'all' ? true : post.status === filter)] *)
Definition shown (f : Filter) (p : PostWithAccount) : bool :=
  match f with
  | all => true
  | only s => status_eqb (status (post p)) s
  end.

Definition filteredPosts (st : State) : list PostWithAccount :=
  List.filter (shown (filter st)) (posts st).

Definition setFilter (f : Filter) (st : State) : State :=
  {| posts := posts st; loading := loading st; filter := f |}.

End PostsPage.

(** ** The [SocialAccounts] page *)

Module AccountsPage.
Import Data.
Local Open Scope list_scope.

Record FormData : Type := {
  form_platform : Platform;
  form_account_name : string;
  form_username : string
}.


Record State : Type := {
  accounts : list SocialAccount;
  loading : bool;
  showAddForm : bool;
  formData : FormData;
  submitting : bool
}.

Inductive Effect : Type :=
| SelectAccounts (owner : string)
| InsertAccount (owner : string) (form : FormData)
| DeleteAccount (key : string)
| Confirm (text : string)
| Alert (text : string)
| ConsoleError (label detail : string).

(** [loadAccounts], with what its query settles to. *)
Definition loadAccounts (owner : string) (answer : Selected SocialAccount)
    (st : State) : State * list Effect :=
  match error answer with
  | Some e =>
      ({| accounts := accounts st;
          loading := false;
          showAddForm := showAddForm st;
          formData := formData st;
          submitting := submitting st |},
       [SelectAccounts owner; ConsoleError "Error loading accounts:" e])
  | None =>
      ({| accounts := match data answer with Some rows => rows | None => [] end;
          loading := false;
          showAddForm := showAddForm st;
          formData := formData st;
          submitting := submitting st |},
       [SelectAccounts owner])
  end.



Definition confirmText : string :=
  "Are you sure you want to remove this account?".

(** [handleDelete], run without interruption: [confirmed] is what
    [confirm(...)] returns. *)
Definition handleDelete (owner : string) (confirmed : bool)
    (deleteError : option string) (reload : Selected SocialAccount)
    (key : string) (st : State) : State * list Effect :=
  if negb confirmed then (st, [Confirm confirmText])
  else
    match deleteError with
    | Some e =>
        (st,
         [Confirm confirmText; DeleteAccount key;
          ConsoleError "Error deleting account:" e;
          Alert "Failed to delete account. Please try again."])
    | None =>
        let (loaded, issued) := loadAccounts owner reload st in
        (loaded, Confirm confirmText :: DeleteAccount key :: issued)
    end.

Definition is_delete (e : Effect) : bool :=
  match e with DeleteAccount _ => true | _ => false end.

Definition is_select (e : Effect) : bool :=
  match e with SelectAccounts _ => true | _ => false end.

End AccountsPage.

(** ** [App], [ProtectedRoute] and [Layout] *)

Module Shell.

(** ['chat' | 'accounts' | 'posts' | 'analytics'] *)
Inductive View : Type := chat | accounts | posts | analytics.

Inductive Page : Type := ChatPage | SocialAccountsPage | PostsPage | AnalyticsPage.

(** What [useAuth()] gives. *)
Record AuthContext : Type := {
  user : option string;
  loading : bool
}.

(** What is on the screen, as far as it depends on the state. *)
Inductive Element : Type :=
| AuthScreen                 (* <Auth /> *)
| LoadingScreen              (* "Loading..." *)
| Nothing                    (* null *)
| Framed (currentView : View) (sidebarOpen : bool) (children : Element)
| Shown (page : Page).

(** The [switch] of [renderView]; its [default] cannot be taken on the
    four values of the type. *)
Definition renderView (currentView : View) : Element :=
  match currentView with
  | chat => Shown ChatPage
  | accounts => Shown SocialAccountsPage
  | posts => Shown PostsPage
  | analytics => Shown AnalyticsPage
  end.

Definition ProtectedRoute (ctx : AuthContext) (children : Element) : Element :=
  if loading ctx then LoadingScreen
  else
    match user ctx with
    | None => Nothing
    | Some _ => children
    end.

Definition Layout (currentView : View) (sidebarOpen : bool)
    (children : Element) : Element :=
  Framed currentView sidebarOpen children.

(** The two cells of state: [currentView] of [App], [sidebarOpen] of
    [Layout]. *)
Record State : Type := {
  currentView : View;
  sidebarOpen : bool
}.

Definition initial : State := {| currentView := chat; sidebarOpen := false |}.

Definition App (ctx : AuthContext) (st : State) : Element :=
  match user ctx with
  | None => AuthScreen
  | Some _ =>
      ProtectedRoute ctx
        (Layout (currentView st) (sidebarOpen st) (renderView (currentView st)))
  end.

(** The three click handlers of [Layout]. *)
Inductive Click : Type :=
| MenuItem (item : View)     (* onViewChange(item.id); setSidebarOpen(false) *)
| Overlay                    (* setSidebarOpen(false) *)
| MenuButton.                (* setSidebarOpen(true) *)

Definition click (st : State) (c : Click) : State :=
  match c with
  | MenuItem item => {| currentView := item; sidebarOpen := false |}
  | Overlay => {| currentView := currentView st; sidebarOpen := false |}
  | MenuButton => {| currentView := currentView st; sidebarOpen := true |}
  end.

Definition clicks (st : State) (cs : list Click) : State :=
  fold_left click cs st.

(** The item of the last [MenuItem] click of [cs], if any. *)
Fixpoint last_selected (cs : list Click) : option View :=
  match cs with
  | [] => None
  | c :: rest =>
      match last_selected rest with
      | Some v => Some v
      | None => match c with MenuItem item => Some item | _ => None end
      end
  end.

End Shell.

(** * JSON on the wire *)

Module JsFacts.

(** A value without [undefined] and without a number that is not finite
    is read back as it was sent. *)
Lemma wire_plain : forall v, Js.plain v = true -> Js.wire v = v.
Proof.
  fix IH 1. intros v. destruct v as [| | b | z | n | s | items | fields];
    simpl; try reflexivity; try discriminate.
  - intros H. f_equal. revert H.
    induction items as [|a items IHl]; simpl; [reflexivity|].
    intros H. apply andb_prop in H as [H1 H2].
    f_equal; [now apply IH | now apply IHl].
  - intros H. f_equal. revert H.
    induction fields as [|[k x] rest IHl]; simpl; [reflexivity|].
    intros H. apply andb_prop in H as [H1 H2].
    assert (Js.wire x = x) as Hx by now apply IH.
    rewrite (IHl H2).
    destruct x; try discriminate H1; now rewrite <- Hx at 2.
Qed.

(** What is truthy stays truthy on the wire, a number that is not finite
    apart: that one is read back as [null]. *)
Lemma wire_truthy (v : Js.value) :
  Js.truthy v = true ->
  (forall negative, v <> Js.Infinite negative) ->
  Js.truthy (Js.wire v) = true.
Proof.
  destruct v; simpl; auto. intros _ H. now contradiction (H negative).
Qed.

Lemma wire_reply (flag : bool) (reply : Js.value) :
  Js.truthy reply = true ->
  Js.wire (Js.Obj [("success", Js.Bool flag); ("response", reply)]) =
  Js.Obj [("success", Js.Bool flag); ("response", Js.wire reply)].
Proof. destruct reply; simpl; try discriminate; reflexivity. Qed.

End JsFacts.

(** * Properties of the Relay Service *)

Module RelayFacts.
Import Relay.



(** The handler on a body whose two fields can be read, past the
    preflight test. *)
Lemma serve_fields (env : Env) (req : Request) (parsed message userId : Js.value) :
  (method req =? "OPTIONS") = false ->
  json req = Ok parsed ->
  Js.get parsed "message" = Some message ->
  Js.get parsed "userId" = Some userId ->
  serve env req =
    if negb (Js.truthy message) || negb (Js.truthy userId) then
      Respond [] missingFields
    else if token_missing env then
      Respond [["WEBHOOK_AUTH_TOKEN is not configured"]] configurationError
    else
      match WEBHOOK_AUTH_TOKEN env with
      | Some token =>
          Outbound (outboundCall token env message userId)
                   (fun settled => caught (after_fetch settled))
      | None => Respond [["WEBHOOK_AUTH_TOKEN is not configured"]]
                        configurationError
      end.
Proof.
  intros Hm Hj Hmsg Huid.
  unfold serve, token_missing, read. rewrite Hm, Hj. simpl.
  rewrite Hmsg. simpl. rewrite Huid. simpl.
  destruct (negb (Js.truthy message) || negb (Js.truthy userId)); [reflexivity|].
  destruct (WEBHOOK_AUTH_TOKEN env) as [token|]; [|reflexivity].
  destruct (token =? ""); reflexivity.
Qed.

Lemma post_is_not_preflight (req : Request) :
  method req = "POST" -> (method req =? "OPTIONS") = false.
Proof. intros ->. reflexivity. Qed.





(** C5.  For every POST request with both fields present, when the
    shared secret is absent from the configuration (unset, or set to the
    empty string) the handler answers with status 500 and
    [{success: false, response: "Service configuration error. ..."}], and
    the run issues no outbound call. *)
Theorem unconfigured_secret_fails_closed
    (env : Env) (req : Request) (parsed message userId : Js.value)
    (settled : FetchResult) :
  method req = "POST" ->
  json req = Ok parsed ->
  Js.get parsed "message" = Some message ->
  Js.get parsed "userId" = Some userId ->
  Js.truthy message = true ->
  Js.truthy userId = true ->
  token_missing env = true ->
  let r := answer (serve env req) settled in
  status r = 500%Z /\
  body r = Some (Js.Obj
    [("success", Js.Bool false);
     ("response", Js.Str "Service configuration error. Please contact support.")]) /\
  outbound_calls (serve env req) = [].
Proof.
  intros Hpost Hj Hmsg Huid Tm Tu Htok r. subst r.
  rewrite (serve_fields env req parsed message userId);
    auto using post_is_not_preflight.
  rewrite Tm, Tu, Htok. simpl. repeat split.
Qed.

Lemma unconfigured_secret_fails_closed_witness :
  let r := answer (serve unconfigured (post hello)) (Rejected "unreachable") in
  status r = 500%Z /\
  body r = Some (Js.Obj
    [("success", Js.Bool false);
     ("response", Js.Str "Service configuration error. Please contact support.")]) /\
  outbound_calls (serve unconfigured (post hello)) = [].
Proof.
  apply (unconfigured_secret_fails_closed unconfigured (post hello) hello
           (Js.Str "hello") (Js.Str "u1")); reflexivity.
Defined.




(** A run that suspends on the outbound call resumes in [after_fetch]
    under the handler's [catch]. *)
Lemma serve_outbound (env : Env) (req : Request) (call : OutboundCall)
    (resume : FetchResult -> list LogLine * Response) :
  serve env req = Outbound call resume ->
  resume = (fun settled => caught (after_fetch settled)).
Proof.
  unfold serve.
  destruct (method req =? "OPTIONS"); [discriminate|].
  destruct (json req) as [parsed | m]; simpl; [|discriminate].
  destruct (read parsed "message") as [message | m]; simpl; [|discriminate].
  destruct (read parsed "userId") as [userId | m]; simpl; [|discriminate].
  destruct (negb (Js.truthy message) || negb (Js.truthy userId)); [discriminate|].
  destruct (WEBHOOK_AUTH_TOKEN env) as [token|]; [|discriminate].
  destruct (token =? ""); [discriminate|].
  intros H. injection H as _ H. now symmetry.
Qed.

(** C7, as stated, fails: the external endpoint answers with a success
    status and an empty body; reading that body as JSON throws, and the
    handler's [catch] answers 500 "Internal server error", not 200 with
    [{success: true, response: ...}]. *)
Lemma upstream_success_unparsed_counterexample :
  let settled := upstream_ok "" (Throw "Unexpected end of JSON input") in
  let r := answer (serve configured (post hello)) settled in
  outbound_calls (serve configured (post hello)) <> [] /\
  r = internalError "Unexpected end of JSON input" /\
  ~ (status r = 200%Z /\
     exists reply,
       body r = Some (Js.Obj [("success", Js.Bool true); ("response", reply)])).
Proof.
  cbv zeta. split; [discriminate|]. split; [reflexivity|].
  intros [H _]. discriminate H.
Qed.

(** The handler's success answer to an upstream reply that is a number
    beyond the range of a double: the value it answers with is truthy,
    and the client reads [null]. *)
Lemma infinite_reply_written_null :
  let up := {| ok := true;
               text := Throw "not read";
               upstream_json := Ok (Js.Obj [("response", Js.Infinite false)]) |} in
  let answered := answer (serve configured (post hello)) (Resolved up) in
  status answered = 200%Z /\
  body answered = Some (Js.Obj [("success", Js.Bool true);
                                ("response", Js.Infinite false)]) /\
  written answered = Some (Js.Obj [("success", Js.Bool true);
                                   ("response", Js.Null)]).
Proof. cbv zeta. repeat split. Qed.

(** C7, amended.  When the outbound call answers with a success status
    and its body reads as a JSON value whose [response] field can be
    read (any JSON value but [null]), the handler answers with status
    200 and [{success: true, response: r}], where [r] is the upstream
    [response] field when that is present and truthy, and the fixed
    non-empty placeholder otherwise.  The [r] it answers with is never
    empty, and neither is the reply the client reads, with one
    exception: a reply that is a number that is not finite (what
    [1e400] reads as) is written as [null]. *)
Theorem upstream_success_reply
    (env : Env) (req : Request) (call : OutboundCall)
    (resume : FetchResult -> list LogLine * Response)
    (up : Upstream) (n8nData field : Js.value) :
  serve env req = Outbound call resume ->
  ok up = true ->
  upstream_json up = Ok n8nData ->
  Js.get n8nData "response" = Some field ->
  let r := Js.or field (Js.Str placeholder) in
  let answered := answer (serve env req) (Resolved up) in
  status answered = 200%Z /\
  body answered = Some (Js.Obj [("success", Js.Bool true); ("response", r)]) /\
  (Js.truthy field = true -> r = field) /\
  (Js.truthy field = false -> r = Js.Str placeholder) /\
  Js.truthy r = true /\
  r <> Js.Str "" /\
  written answered =
    Some (Js.Obj [("success", Js.Bool true); ("response", Js.wire r)]) /\
  ((forall negative, field <> Js.Infinite negative) ->
   Js.truthy (Js.wire r) = true /\ Js.wire r <> Js.Str "" /\
   Js.wire r <> Js.Null) /\
  (Js.plain r = true -> Js.wire r = r) /\
  (forall negative, field = Js.Infinite negative -> Js.wire r = Js.Null).
Proof.
  intros Hserve Hok Hjson Hget r answered.
  assert (answered = success r) as Hans.
  { subst r answered. rewrite Hserve. simpl.
    rewrite (serve_outbound env req call resume Hserve). simpl.
    unfold read. rewrite Hok, Hjson. simpl. rewrite Hget. reflexivity. }
  assert (Js.truthy r = true) as T.
  { subst r. unfold Js.or.
    destruct (Js.truthy field) eqn:T; [exact T | reflexivity]. }
  rewrite Hans. clear Hans answered.
  split; [reflexivity|]. split; [reflexivity|].
  split; [subst r; unfold Js.or; now intros ->|].
  split; [subst r; unfold Js.or; now intros ->|].
  split; [exact T|].
  split; [intros E; rewrite E in T; discriminate T|].
  split.
  { unfold written, success. cbn [body option_map].
    now rewrite (JsFacts.wire_reply true r T). }
  split; [|split].
  - intros Hfin.
    assert (forall negative, r <> Js.Infinite negative) as Hr.
    { intros negative E. subst r. unfold Js.or in E.
      destruct (Js.truthy field); [now apply (Hfin negative)|discriminate E]. }
    assert (Js.truthy (Js.wire r) = true) as Tw
      by now apply JsFacts.wire_truthy.
    split; [exact Tw|].
    split; intros E; rewrite E in Tw; discriminate Tw.
  - apply JsFacts.wire_plain.
  - intros negative ->. reflexivity.
Qed.

Lemma upstream_success_reply_witness :
  let up := {| ok := true;
               text := Ok "{}";
               upstream_json := Ok (Js.Obj []) |} in
  let r := Js.or Js.Undefined (Js.Str placeholder) in
  let answered := answer (serve configured (post hello)) (Resolved up) in
  status answered = 200%Z /\
  body answered = Some (Js.Obj [("success", Js.Bool true); ("response", r)]) /\
  (Js.truthy Js.Undefined = true -> r = Js.Undefined) /\
  (Js.truthy Js.Undefined = false -> r = Js.Str placeholder) /\
  Js.truthy r = true /\
  r <> Js.Str "" /\
  written answered =
    Some (Js.Obj [("success", Js.Bool true); ("response", Js.wire r)]) /\
  ((forall negative, Js.Undefined <> Js.Infinite negative) ->
   Js.truthy (Js.wire r) = true /\ Js.wire r <> Js.Str "" /\
   Js.wire r <> Js.Null) /\
  (Js.plain r = true -> Js.wire r = r) /\
  (forall negative, Js.Undefined = Js.Infinite negative -> Js.wire r = Js.Null).
Proof.
  intros up.
  apply (upstream_success_reply configured (post hello)
           (outboundCall "s3cret" configured (Js.Str "hello") (Js.Str "u1"))
           (fun settled => caught (after_fetch settled))
           up (Js.Obj []) Js.Undefined); reflexivity.
Defined.

End RelayFacts.

(** * Properties of the Conversation Controller *)

Module ChatFacts.
Import Chat.
Local Open Scope list_scope.

(** ** Lists *)

Section Positions.
Context {A : Type}.

Lemma nth_error_last (l : list A) (x : A) :
  nth_error (l ++ [x]) (length l) = Some x.
Proof. induction l; simpl; auto. Qed.

Lemma set_nth_last (l : list A) (x y : A) :
  set_nth (length l) y (l ++ [x]) = l ++ [y].
Proof. induction l; simpl; congruence. Qed.

Lemma remove_nth_last (l : list A) (x : A) :
  remove_nth (length l) (l ++ [x]) = l.
Proof. induction l; simpl; congruence. Qed.

End Positions.

Lemma filtered_app (t : ChatMessage) (l1 l2 : list ChatMessage) :
  filtered t (l1 ++ l2) = filtered t l1 ++ filtered t l2.
Proof. apply filter_app. Qed.

Lemma filtered_self (t : ChatMessage) : filtered t [t] = [].
Proof. unfold filtered. simpl. now rewrite String.eqb_refl. Qed.

Lemma filtered_fresh (t : ChatMessage) (l : list ChatMessage) :
  (forall m, In m l -> id m <> id t) -> filtered t l = l.
Proof.
  unfold filtered. induction l as [|x l IH]; simpl; intros Hfresh; [reflexivity|].
  destruct (String.eqb_spec (id x) (id t)) as [E | _]; simpl.
  - exfalso. apply (Hfresh x); auto.
  - f_equal. apply IH. auto.
Qed.

Lemma with_id_fresh (i : string) (l : list ChatMessage) :
  (forall m, In m l -> id m <> i) -> with_id i l = [].
Proof.
  unfold with_id. induction l as [|x l IH]; simpl; intros Hfresh; [reflexivity|].
  destruct (String.eqb_spec (id x) i) as [E | _].
  - exfalso. apply (Hfresh x); auto.
  - apply IH. auto.
Qed.

Lemma with_id_app (i : string) (l1 l2 : list ChatMessage) :
  with_id i (l1 ++ l2) = with_id i l1 ++ with_id i l2.
Proof. apply filter_app. Qed.

(** ** One call at a time *)

(** Either nothing is suspended and [loading] is off, or exactly one
    [sendMessage] is suspended and [loading] is on. *)
Definition single_flight (s : Session) : Prop :=
  (sending s = [] /\ loading (view s) = false) \/
  (exists call, sending s = [call] /\ loading (view s) = true).

Lemma single_flight_init (owner : string) (table : list ChatMessage) :
  single_flight (init owner table).
Proof. left. split; reflexivity. Qed.

Lemma single_flight_send (s : Session) (uuid : string) (now : Z) :
  single_flight s -> single_flight (sendMessage (view s) uuid now s).
Proof.
  intros Hinv. unfold sendMessage.
  destruct (trim (inputMessage (view s)) =? "")%string; simpl; [exact Hinv|].
  destruct (loading (view s)) eqn:Hl; simpl; [exact Hinv|].
  destruct Hinv as [[Hs _] | (call & _ & Hl')]; [|congruence].
  right. rewrite Hs. simpl. eauto.
Qed.

Lemma single_flight_step (s : Session) (e : Event) :
  one_call e = true -> single_flight s -> single_flight (step s e).
Proof.
  intros Hone Hinv.
  destruct e as [value | uuid now | calls | n r | n v | failure | n]; simpl.
  - exact Hinv.
  - now apply single_flight_send.
  - destruct calls as [|[uuid now] [|call calls]]; simpl in *;
      [exact Hinv | now apply single_flight_send | discriminate].
  - unfold relay_settled.
    destruct Hinv as [[Hs Hl] | (call & Hs & Hl)]; rewrite Hs.
    + destruct n; simpl; left; auto.
    + destruct n as [|n]; simpl.
      * destruct call as [t um | t p]; [|right; eauto].
        destruct (assistantResponse r); simpl.
        -- right. simpl. eauto.
        -- left. simpl. rewrite Hs. auto.
      * destruct n; simpl; right; eauto.
  - unfold insert_settled.
    destruct Hinv as [[Hs Hl] | (call & Hs & Hl)]; rewrite Hs.
    + destruct n; simpl; left; auto.
    + destruct n as [|n]; simpl.
      * destruct call as [t um | t p]; [right; eauto|].
        destruct v as [new_id at_time | e]; simpl.
        -- left. simpl. auto.
        -- left. simpl. rewrite Hs. auto.
      * destruct n; simpl; right; eauto.
  - exact Hinv.
  - unfold history_settled.
    destruct (nth_error (loads s) n) as [answer|]; [|exact Hinv].
    destruct (error answer); exact Hinv.
Qed.

Lemma single_flight_run (events : list Event) (s : Session) :
  forallb one_call events = true ->
  single_flight s -> single_flight (run s events).
Proof.
  unfold run. revert s.
  induction events as [|e events IH]; simpl; intros s Hone Hinv.
  - exact Hinv.
  - apply andb_prop in Hone as [He Hes].
    apply IH; [exact Hes|]. now apply single_flight_step.
Qed.

Lemma in_turn_single_flight (s : Session) :
  reachable_in_turn s -> single_flight s.
Proof.
  intros (owner & table & events & Hone & ->).
  apply single_flight_run; [exact Hone | apply single_flight_init].
Qed.

(** ** [loading] is on only while something is suspended *)

Lemma length_set_nth {A : Type} (n : nat) (y : A) (l : list A) :
  length (set_nth n y l) = length l.
Proof.
  revert n. induction l as [|a l IH]; intros [|n]; simpl; auto.
Qed.

Lemma busy_send (shown : State) (uuid : string) (now : Z) (s : Session) :
  (loading (view s) = true -> sending s <> []) ->
  loading (view (sendMessage shown uuid now s)) = true ->
  sending (sendMessage shown uuid now s) <> [].
Proof.
  intros Hinv. unfold sendMessage.
  destruct ((trim (inputMessage shown) =? "")%string || loading shown);
    [exact Hinv|].
  simpl. intros _ H. now apply app_eq_nil in H as [_ H].
Qed.

Lemma busy_step (s : Session) (e : Event) :
  (loading (view s) = true -> sending s <> []) ->
  loading (view (step s e)) = true -> sending (step s e) <> [].
Proof.
  intros Hinv.
  destruct e as [value | uuid now | calls | n r | n v | failure | n]; simpl.
  - exact Hinv.
  - now apply busy_send.
  - generalize (view s) as shown. intros shown. revert s Hinv.
    induction calls as [|call calls IH]; simpl; intros s Hinv; [exact Hinv|].
    apply IH. now apply busy_send.
  - unfold relay_settled.
    destruct (nth_error (sending s) n) as [[t um | t p]|] eqn:Hn;
      try exact Hinv.
    destruct (assistantResponse r); simpl; [|discriminate].
    intros Hl H. apply (f_equal (@length Sending)) in H.
    rewrite length_set_nth in H. apply length_zero_iff_nil in H.
    now apply Hinv.
  - unfold insert_settled.
    destruct (nth_error (sending s) n) as [[t um | t p]|] eqn:Hn;
      try exact Hinv.
    destruct v; simpl; discriminate.
  - exact Hinv.
  - unfold history_settled.
    destruct (nth_error (loads s) n) as [answer|]; [|exact Hinv].
    destruct (error answer); exact Hinv.
Qed.

Lemma reachable_busy (s : Session) :
  reachable s -> loading (view s) = true -> sending s <> [].
Proof.
  intros (owner & table & events & ->). unfold run.
  assert (loading (view (init owner table)) = true ->
          sending (init owner table) <> []) as H0 by discriminate.
  revert H0. generalize (init owner table).
  induction events as [|e events IH]; simpl; intros s Hinv; [exact Hinv|].
  apply IH. now apply busy_step.
Qed.

(** C3, as stated, fails: two calls of [sendMessage] through the handler
    of one render both pass the guard, which tests the [loading] that
    render read.  The second call is made while the first is pending;
    it is accepted all the same, adds a second provisional entry and
    issues a second call to the relay, and two submissions are pending. *)
Lemma stale_submit_accepted_counterexample :
  let first := sendMessage (view typing) "t1" 5 typing in
  let second := sendMessage (view typing) "t2" 6 first in
  pending first /\
  second = run (init "u1" []) [Typed " hi "; Submits [("t1", 5%Z); ("t2", 6%Z)]] /\
  second <> first /\
  length (messages (view first)) = 1%nat /\
  length (messages (view second)) = 2%nat /\
  effects second = [RelayCall "hi" "u1"; RelayCall "hi" "u1"] /\
  length (sending second) = 2%nat.
Proof.
  cbv zeta. split; [discriminate|]. split; [reflexivity|].
  split; [|repeat split].
  intros H. apply (f_equal (fun x => length (sending x))) in H.
  vm_compute in H. discriminate H.
Qed.

(** C3, amended.  A call of [sendMessage] through the handler of a
    render that shows [loading] returns at its guard and leaves the
    session as it was, whatever the session is.  As long as no two calls
    are made through the handler of one render, a pending submission
    has [loading] on, so a further call through the handler on the
    screen is rejected without effect (the list keeps its length, no
    relay or store call is issued) and at most one submission is
    pending. *)
Theorem pending_submit_rejected
    (s : Session) (uuid : string) (now : Z) :
  reachable_in_turn s ->
  pending s ->
  loading (view s) = true /\
  step s (Submit uuid now) = s /\
  length (messages (view (step s (Submit uuid now)))) =
    length (messages (view s)) /\
  effects (step s (Submit uuid now)) = effects s /\
  (length (sending s) <= 1)%nat /\
  (forall shown any, loading shown = true ->
                     sendMessage shown uuid now any = any).
Proof.
  intros Hreach Hpending.
  assert (forall shown any, loading shown = true ->
                            sendMessage shown uuid now any = any) as Hguard.
  { intros shown any Hl. unfold sendMessage. rewrite Hl.
    now rewrite orb_true_r. }
  destruct (in_turn_single_flight s Hreach) as [[Hs _] | (call & Hs & Hl)].
  - contradiction.
  - assert (step s (Submit uuid now) = s) as Hstep by (simpl; now apply Hguard).
    rewrite Hstep, Hs. simpl. auto 7.
Qed.

Lemma pending_submit_rejected_witness :
  loading (view waiting) = true /\
  step waiting (Submit "t2" 6) = waiting /\
  length (messages (view (step waiting (Submit "t2" 6)))) =
    length (messages (view waiting)) /\
  effects (step waiting (Submit "t2" 6)) = effects waiting /\
  (length (sending waiting) <= 1)%nat /\
  (forall shown any, loading shown = true ->
                     sendMessage shown "t2" 6 any = any).
Proof.
  apply (pending_submit_rejected waiting "t2" 6).
  - exists "u1"%string, [], [Typed " hi "; Submit "t1" 5].
    split; reflexivity.
  - discriminate.
Defined.

(** ** One submission, start to finish *)

Lemma sendMessage_accepted (uuid : string) (now : Z) (s : Session) :
  trim (inputMessage (view s)) <> ""%string ->
  loading (view s) = false ->
  sendMessage (view s) uuid now s =
  {| user := user s;
     view := {| messages := messages (view s) ++ [tempMessage uuid now s];
                inputMessage := "";
                loading := true;
                loadingHistory := loadingHistory (view s) |};
     sending := sending s
                ++ [AwaitRelay (tempMessage uuid now s)
                               (trim (inputMessage (view s)))];
     loads := loads s;
     store := store s;
     effects := effects s
                ++ [RelayCall (trim (inputMessage (view s))) (user s)] |}.
Proof.
  intros Hinput Hl. unfold sendMessage. rewrite Hl.
  apply String.eqb_neq in Hinput. rewrite Hinput. reflexivity.
Qed.

Lemma submission_thrown (uuid : string) (now : Z) (r : Fetched) (v : Verdict)
    (s : Session) (e : string) :
  trim (inputMessage (view s)) <> ""%string ->
  loading (view s) = false ->
  assistantResponse r = Throw e ->
  submission uuid now r v s =
  {| user := user s;
     view := {| messages :=
                  replace_with_error (tempMessage uuid now s)
                    (messages (view s) ++ [tempMessage uuid now s]);
                inputMessage := "";
                loading := false;
                loadingHistory := loadingHistory (view s) |};
     sending := sending s;
     loads := loads s;
     store := store s;
     effects := (effects s
                 ++ [RelayCall (trim (inputMessage (view s))) (user s)])
                ++ [ConsoleError "Error sending message:" e] |}.
Proof.
  intros Hinput Hl Hr. unfold submission.
  rewrite (sendMessage_accepted uuid now s Hinput Hl).
  unfold relay_settled. cbn [sending]. rewrite nth_error_last, Hr.
  unfold caught at 1. cbn [sending view user loads store effects messages
                           inputMessage loadingHistory].
  rewrite remove_nth_last.
  unfold insert_settled. cbn [sending].
  destruct (nth_error (sending s) (length (sending s))) eqn:Hn; [|reflexivity].
  exfalso.
  assert (nth_error (sending s) (length (sending s)) = None) as Hnone
    by (apply nth_error_None; lia).
  congruence.
Qed.

Lemma submission_refused (uuid : string) (now : Z) (r : Fetched)
    (s : Session) (answer : Js.value) (e : string) :
  trim (inputMessage (view s)) <> ""%string ->
  loading (view s) = false ->
  assistantResponse r = Ok answer ->
  submission uuid now r (Refuse e) s =
  {| user := user s;
     view := {| messages :=
                  replace_with_error (tempMessage uuid now s)
                    (messages (view s) ++ [tempMessage uuid now s]);
                inputMessage := "";
                loading := false;
                loadingHistory := loadingHistory (view s) |};
     sending := sending s;
     loads := loads s;
     store := store s;
     effects := ((effects s
                  ++ [RelayCall (trim (inputMessage (view s))) (user s)])
                 ++ [StoreInsert (payload s answer)])
                ++ [ConsoleError "Error sending message:" e] |}.
Proof.
  intros Hinput Hl Hr. unfold submission.
  rewrite (sendMessage_accepted uuid now s Hinput Hl).
  unfold relay_settled. cbn [sending]. rewrite nth_error_last, Hr.
  cbn [sending view user loads store effects].
  rewrite set_nth_last.
  unfold insert_settled. cbn [sending]. rewrite nth_error_last.
  unfold caught. cbn [sending view user loads store effects messages
                      inputMessage loadingHistory].
  rewrite remove_nth_last. reflexivity.
Qed.

Lemma submission_committed (uuid : string) (now : Z) (r : Fetched)
    (s : Session) (answer : Js.value) (new_id : string) (at_time : Z) :
  trim (inputMessage (view s)) <> ""%string ->
  loading (view s) = false ->
  assistantResponse r = Ok answer ->
  submission uuid now r (Commit new_id at_time) s =
  {| user := user s;
     view := {| messages :=
                  replace_with_saved (tempMessage uuid now s)
                    (snd (store_insert (store s) (payload s answer)
                                       new_id at_time))
                    (messages (view s) ++ [tempMessage uuid now s]);
                inputMessage := "";
                loading := false;
                loadingHistory := loadingHistory (view s) |};
     sending := sending s;
     loads := loads s;
     store := fst (store_insert (store s) (payload s answer) new_id at_time);
     effects := (effects s
                 ++ [RelayCall (trim (inputMessage (view s))) (user s)])
                ++ [StoreInsert (payload s answer)] |}.
Proof.
  intros Hinput Hl Hr. unfold submission.
  rewrite (sendMessage_accepted uuid now s Hinput Hl).
  unfold relay_settled. cbn [sending]. rewrite nth_error_last, Hr.
  cbn [sending view user loads store effects].
  rewrite set_nth_last.
  unfold insert_settled. cbn [sending]. rewrite nth_error_last.
  cbn [sending view user loads store effects messages inputMessage
       loadingHistory store_insert fst snd].
  rewrite remove_nth_last. reflexivity.
Qed.

Lemma replace_with_error_last (temp : ChatMessage) (prev : list ChatMessage) :
  (forall m, In m prev -> id m <> id temp) ->
  replace_with_error temp (prev ++ [temp]) =
  prev ++ [with_response temp (Js.Str errorText)].
Proof.
  intros Hfresh. unfold replace_with_error.
  now rewrite filtered_app, filtered_self, app_nil_r, filtered_fresh.
Qed.

Lemma replace_with_saved_last (temp saved : ChatMessage)
    (prev : list ChatMessage) :
  (forall m, In m prev -> id m <> id temp) ->
  replace_with_saved temp saved (prev ++ [temp]) = prev ++ [saved].
Proof.
  intros Hfresh. unfold replace_with_saved.
  now rewrite filtered_app, filtered_self, app_nil_r, filtered_fresh.
Qed.

Lemma assistantResponse_truthy (r : Fetched) (answer : Js.value) :
  assistantResponse r = Ok answer -> Js.truthy answer = true.
Proof.
  destruct r as [m | reply]; simpl; [discriminate|].
  destruct (reply_ok reply); simpl; [|discriminate].
  destruct (reply_json reply) as [data | m]; simpl; [|discriminate].
  destruct (read data "response") as [field | m]; simpl; [|discriminate].
  intros H. injection H as <-. unfold Js.or.
  destruct (Js.truthy field) eqn:T; [exact T | reflexivity].
Qed.

Lemma failure_cases (r : Fetched) (v : Verdict) :
  Failure r v ->
  (exists e, assistantResponse r = Throw e) \/
  (exists answer e, assistantResponse r = Ok answer /\ v = Refuse e).
Proof.
  intros [m -> | reply -> Hok | reply e _ _ Hr | answer e Hr ->].
  - left. exists m. reflexivity.
  - left. exists "Failed to send message"%string. simpl. now rewrite Hok.
  - left. eauto.
  - right. eauto.
Qed.

(** ** C1: how the saved row takes the provisional entry's place *)




(** ** C2: exactly one entry per submission *)

Lemma with_id_temp (uuid : string) (now : Z) (s : Session) :
  (forall m, In m (messages (view s)) -> id m <> uuid) ->
  with_id uuid (messages (view s) ++ [tempMessage uuid now s]) =
  [tempMessage uuid now s].
Proof.
  intros Hfresh. rewrite with_id_app, with_id_fresh by exact Hfresh.
  unfold with_id. simpl. now rewrite String.eqb_refl.
Qed.

Lemma with_id_one_more (i : string) (l : list ChatMessage) (x : ChatMessage) :
  (forall m, In m l -> id m <> i) ->
  (length (with_id i (l ++ [x])) <= 1)%nat.
Proof.
  intros Hfresh. rewrite with_id_app, with_id_fresh by exact Hfresh.
  unfold with_id. simpl. destruct (id x =? i)%string; simpl; lia.
Qed.

(** C2.  A prompt that is non-empty after trimming, submitted in a
    reachable state while no submission is pending, under an identifier
    no entry of the list carries yet: the provisional entry is appended
    at once; when the submission has resolved, by success or by failure,
    the list is the list from before the submission with exactly one
    entry added, whose reply is set; at no point do two entries carry
    the temporary id; and nothing is left pending. *)
Theorem submission_adds_exactly_one
    (uuid : string) (now : Z) (r : Fetched) (v : Verdict) (s : Session) :
  reachable s ->
  ~ pending s ->
  trim (inputMessage (view s)) <> ""%string ->
  (forall m, In m (messages (view s)) -> id m <> uuid) ->
  let provisional := sendMessage (view s) uuid now s in
  let awaiting := relay_settled (length (sending s)) r provisional in
  let resolved := submission uuid now r v s in
  messages (view provisional) = messages (view s) ++ [tempMessage uuid now s] /\
  (exists x,
      messages (view resolved) = messages (view s) ++ [x] /\
      Js.truthy (response x) = true) /\
  length (messages (view resolved)) = S (length (messages (view s))) /\
  length (with_id uuid (messages (view provisional))) = 1%nat /\
  (length (with_id uuid (messages (view awaiting))) <= 1)%nat /\
  (length (with_id uuid (messages (view resolved))) <= 1)%nat /\
  ~ pending resolved.
Proof.
  intros Hreach Hquiet Hinput Hfresh provisional awaiting resolved.
  assert (sending s = [] /\ loading (view s) = false) as [Hs Hl].
  { assert (sending s = []) as Hs.
    { destruct (sending s) eqn:E; [reflexivity|].
      exfalso. apply Hquiet. unfold pending. rewrite E. discriminate. }
    split; [exact Hs|].
    destruct (loading (view s)) eqn:Hl; [|reflexivity].
    now destruct (reachable_busy s Hreach Hl). }
  assert (exists x,
             messages (view resolved) = messages (view s) ++ [x] /\
             Js.truthy (response x) = true /\
             sending resolved = sending s) as (x & Hx & Htruthy & Hsending).
  { subst resolved. destruct (assistantResponse r) as [answer | e] eqn:Hr.
    - destruct v as [new_id at_time | e].
      + rewrite (submission_committed uuid now r s answer new_id at_time)
          by assumption.
        cbn [view messages sending store_insert snd].
        rewrite replace_with_saved_last by exact Hfresh.
        eexists. split; [reflexivity|]. split; [|reflexivity].
        simpl. now apply (assistantResponse_truthy r).
      + rewrite (submission_refused uuid now r s answer e) by assumption.
        cbn [view messages sending].
        rewrite replace_with_error_last by exact Hfresh.
        eexists. split; [reflexivity|]. split; reflexivity.
    - rewrite (submission_thrown uuid now r v s e) by assumption.
      cbn [view messages sending].
      rewrite replace_with_error_last by exact Hfresh.
      eexists. split; [reflexivity|]. split; reflexivity. }
  assert (messages (view provisional) =
          messages (view s) ++ [tempMessage uuid now s]) as Hprov.
  { subst provisional. now rewrite sendMessage_accepted by assumption. }
  assert (length (with_id uuid (messages (view awaiting))) <= 1)%nat as Haw.
  { subst awaiting provisional.
    rewrite sendMessage_accepted by assumption.
    unfold relay_settled. cbn [sending]. rewrite nth_error_last.
    destruct (assistantResponse r); cbn [view messages caught].
    - now apply with_id_one_more.
    - rewrite replace_with_error_last by exact Hfresh.
      now apply with_id_one_more. }
  repeat split.
  - exact Hprov.
  - exists x. auto.
  - rewrite Hx, length_app. simpl. lia.
  - rewrite Hprov, with_id_temp by exact Hfresh. reflexivity.
  - exact Haw.
  - rewrite Hx. now apply with_id_one_more.
  - unfold pending. rewrite Hsending, Hs. intros H. now apply H.
Qed.

Lemma submission_adds_exactly_one_witness :
  let provisional := sendMessage (view typing) "t1" 5 typing in
  let awaiting := relay_settled (length (sending typing)) (replied "R")
                                provisional in
  let resolved := submission "t1" 5 (replied "R") (Commit "s1" 9) typing in
  messages (view provisional) =
    messages (view typing) ++ [tempMessage "t1" 5 typing] /\
  (exists x,
      messages (view resolved) = messages (view typing) ++ [x] /\
      Js.truthy (response x) = true) /\
  length (messages (view resolved)) = S (length (messages (view typing))) /\
  length (with_id "t1" (messages (view provisional))) = 1%nat /\
  (length (with_id "t1" (messages (view awaiting))) <= 1)%nat /\
  (length (with_id "t1" (messages (view resolved))) <= 1)%nat /\
  ~ pending resolved.
Proof.
  apply (submission_adds_exactly_one "t1" 5 (replied "R") (Commit "s1" 9) typing).
  - exists "u1"%string, [], [Typed " hi "]. reflexivity.
  - intros H. now apply H.
  - discriminate.
  - intros m [].
Defined.

(** ** C4 and C9: the failure path *)

(** C4.  For every accepted submission that fails -- the relay call is
    rejected, the relay answers with a status outside 200..299 (502,
    say), its answer cannot be read, or the store refuses the write --
    the provisional entry alone changes, and only in its reply, which
    was absent and becomes the fixed error string; the store's table is
    what it was before the submission, nothing stays suspended that
    could write to it later, and when the relay call is what failed no
    store write is issued at all. *)
Theorem failed_submission_not_persisted
    (uuid : string) (now : Z) (r : Fetched) (v : Verdict) (s : Session) :
  trim (inputMessage (view s)) <> ""%string ->
  loading (view s) = false ->
  (forall m, In m (messages (view s)) -> id m <> uuid) ->
  Failure r v ->
  let temp := tempMessage uuid now s in
  let resolved := submission uuid now r v s in
  messages (view (sendMessage (view s) uuid now s)) = messages (view s) ++ [temp] /\
  messages (view resolved) =
    messages (view s) ++ [with_response temp (Js.Str errorText)] /\
  store resolved = store s /\
  sending resolved = sending s /\
  (forall e, assistantResponse r = Throw e ->
     forall p, In (StoreInsert p) (effects resolved) ->
               In (StoreInsert p) (effects s)) /\
  response temp = Js.Null /\
  (exists x,
      messages (view resolved) = messages (view s) ++ [x] /\
      response x =
        Js.Str "Sorry, there was an error processing your message. Please try again." /\
      id x = uuid /\
      user_id x = user s /\
      message x = trim (inputMessage (view s)) /\
      created_at x = now /\
      metadata x = []).
Proof.
  intros Hinput Hl Hfresh Hfail temp resolved. subst temp resolved.
  split; [now rewrite sendMessage_accepted by assumption|].
  assert (messages (view (submission uuid now r v s)) =
          messages (view s)
          ++ [with_response (tempMessage uuid now s) (Js.Str errorText)])
    as Hlist.
  { destruct (failure_cases r v Hfail) as [(e & Hr) | (answer & e & Hr & ->)].
    - rewrite (submission_thrown uuid now r v s e) by assumption.
      cbn [view messages]. now apply replace_with_error_last.
    - rewrite (submission_refused uuid now r s answer e) by assumption.
      cbn [view messages]. now apply replace_with_error_last. }
  split; [exact Hlist|].
  assert (store (submission uuid now r v s) = store s /\
          sending (submission uuid now r v s) = sending s /\
          (forall e, assistantResponse r = Throw e ->
             forall p, In (StoreInsert p) (effects (submission uuid now r v s)) ->
                       In (StoreInsert p) (effects s))) as (Hst & Hse & Hef).
  { destruct (failure_cases r v Hfail) as [(e & Hr) | (answer & e & Hr & ->)].
    - rewrite (submission_thrown uuid now r v s e) by assumption.
      cbn [store sending effects]. split; [reflexivity|].
      split; [reflexivity|]. intros _ _ p Hin.
      rewrite !in_app_iff in Hin. simpl in Hin.
      destruct Hin as [[Hin | [Hin | []]] | [Hin | []]];
        [exact Hin | discriminate Hin | discriminate Hin].
    - rewrite (submission_refused uuid now r s answer e) by assumption.
      cbn [store sending effects]. split; [reflexivity|].
      split; [reflexivity|]. intros e' He'. congruence. }
  split; [exact Hst|]. split; [exact Hse|]. split; [exact Hef|].
  split; [reflexivity|].
  exists (with_response (tempMessage uuid now s) (Js.Str errorText)).
  split; [exact Hlist|]. repeat split.
Qed.

Lemma failed_submission_not_persisted_witness :
  let temp := tempMessage "t1" 5 typing in
  let resolved := submission "t1" 5 bad_gateway (Commit "s1" 9) typing in
  messages (view (sendMessage (view typing) "t1" 5 typing)) =
    messages (view typing) ++ [temp] /\
  messages (view resolved) =
    messages (view typing) ++ [with_response temp (Js.Str errorText)] /\
  store resolved = store typing /\
  sending resolved = sending typing /\
  (forall e, assistantResponse bad_gateway = Throw e ->
     forall p, In (StoreInsert p) (effects resolved) ->
               In (StoreInsert p) (effects typing)) /\
  response temp = Js.Null /\
  (exists x,
      messages (view resolved) = messages (view typing) ++ [x] /\
      response x =
        Js.Str "Sorry, there was an error processing your message. Please try again." /\
      id x = "t1"%string /\
      user_id x = user typing /\
      message x = trim (inputMessage (view typing)) /\
      created_at x = 5%Z /\
      metadata x = []).
Proof.
  apply (failed_submission_not_persisted "t1" 5 bad_gateway (Commit "s1" 9)
           typing).
  - discriminate.
  - reflexivity.
  - intros m [].
  - eapply http_failure; reflexivity.
Defined.

(** C9.  On the failure path the entry that takes the provisional
    entry's place is the provisional entry with its reply alone changed:
    it has the temporary id, the owner, the prompt, the creation time
    and the metadata of the provisional entry, whose reply was absent,
    and the error string as its reply. *)
Theorem error_entry_keeps_fields
    (uuid : string) (now : Z) (r : Fetched) (v : Verdict) (s : Session) :
  trim (inputMessage (view s)) <> ""%string ->
  loading (view s) = false ->
  Failure r v ->
  let provisional := sendMessage (view s) uuid now s in
  let resolved := submission uuid now r v s in
  exists temp x kept,
    messages (view provisional) = messages (view s) ++ [temp] /\
    messages (view resolved) = kept ++ [x] /\
    id x = id temp /\ id temp = uuid /\
    user_id x = user_id temp /\
    message x = message temp /\
    created_at x = created_at temp /\
    metadata x = metadata temp /\
    response temp = Js.Null /\
    response x = Js.Str errorText.
Proof.
  intros Hinput Hl Hfail provisional resolved. subst provisional resolved.
  exists (tempMessage uuid now s),
         (with_response (tempMessage uuid now s) (Js.Str errorText)),
         (filtered (tempMessage uuid now s)
                   (messages (view s) ++ [tempMessage uuid now s])).
  split; [now rewrite sendMessage_accepted by assumption|].
  split; [|repeat split].
  destruct (failure_cases r v Hfail) as [(e & Hr) | (answer & e & Hr & ->)].
  - now rewrite (submission_thrown uuid now r v s e) by assumption.
  - now rewrite (submission_refused uuid now r s answer e) by assumption.
Qed.

Lemma error_entry_keeps_fields_witness :
  let provisional := sendMessage (view typing) "t1" 5 typing in
  let resolved := submission "t1" 5 (replied "R") (Refuse "denied") typing in
  exists temp x kept,
    messages (view provisional) = messages (view typing) ++ [temp] /\
    messages (view resolved) = kept ++ [x] /\
    id x = id temp /\ id temp = "t1"%string /\
    user_id x = user_id temp /\
    message x = message temp /\
    created_at x = created_at temp /\
    metadata x = metadata temp /\
    response temp = Js.Null /\
    response x = Js.Str errorText.
Proof.
  apply (error_entry_keeps_fields "t1" 5 (replied "R") (Refuse "denied") typing).
  - discriminate.
  - reflexivity.
  - eapply store_failure; reflexivity.
Defined.

(** ** C8: what was saved comes back *)

Lemma insert_by_created_at_perm (r : ChatMessage) (rows : list ChatMessage) :
  Permutation (insert_by_created_at r rows) (r :: rows).
Proof.
  induction rows as [|x rows IH]; simpl; [reflexivity|].
  destruct (created_at r <=? created_at x)%Z; [reflexivity|].
  rewrite IH. apply perm_swap.
Qed.

Lemma order_by_created_at_perm (rows : list ChatMessage) :
  Permutation (order_by_created_at rows) rows.
Proof.
  induction rows as [|x rows IH]; simpl; [reflexivity|].
  rewrite insert_by_created_at_perm. now constructor.
Qed.

Lemma store_select_In (table : list ChatMessage) (owner : string)
    (m : ChatMessage) :
  In m (store_select table owner) <-> In m table /\ user_id m = owner.
Proof.
  unfold store_select. split.
  - intros H.
    apply (Permutation_in _ (order_by_created_at_perm _)) in H.
    apply filter_In in H. now rewrite String.eqb_eq in H.
  - intros [H E].
    apply (Permutation_in _ (Permutation_sym (order_by_created_at_perm _))).
    apply filter_In. now rewrite String.eqb_eq.
Qed.

(** The session never changes owner, and the table only grows. *)
Lemma sendMessage_frame (shown : State) (uuid : string) (now : Z)
    (s : Session) :
  user (sendMessage shown uuid now s) = user s /\
  store (sendMessage shown uuid now s) = store s /\
  loadingHistory (view (sendMessage shown uuid now s))
    = loadingHistory (view s).
Proof.
  unfold sendMessage.
  destruct ((trim (inputMessage shown) =? "")%string || loading shown);
    simpl; auto.
Qed.

Lemma sendMessages_frame (shown : State) (calls : list (string * Z))
    (s : Session) :
  let s' := fold_left (fun acc call =>
                         sendMessage shown (fst call) (snd call) acc)
                      calls s in
  user s' = user s /\ store s' = store s /\
  loadingHistory (view s') = loadingHistory (view s).
Proof.
  revert s. induction calls as [|call calls IH]; simpl; intros s; [auto|].
  destruct (IH (sendMessage shown (fst call) (snd call) s)) as (Hu & Hs & Hh).
  destruct (sendMessage_frame shown (fst call) (snd call) s) as (Hu' & Hs' & Hh').
  rewrite Hu, Hs, Hh. auto.
Qed.

Lemma step_user (s : Session) (e : Event) : user (step s e) = user s.
Proof.
  destruct e as [value | uuid now | calls | n r | n v | failure | n]; simpl;
    try reflexivity.
  - apply sendMessage_frame.
  - apply (sendMessages_frame (view s) calls s).
  - unfold relay_settled.
    destruct (nth_error (sending s) n) as [[t um | t p]|]; try reflexivity.
    now destruct (assistantResponse r).
  - unfold insert_settled.
    destruct (nth_error (sending s) n) as [[t um | t p]|]; try reflexivity.
    now destruct v.
  - unfold history_settled.
    destruct (nth_error (loads s) n) as [answer|]; [|reflexivity].
    now destruct (error answer).
Qed.

Lemma step_store (s : Session) (e : Event) (m : ChatMessage) :
  In m (store s) -> In m (store (step s e)).
Proof.
  intros Hin.
  destruct e as [value | uuid now | calls | n r | n v | failure | n]; simpl;
    try exact Hin.
  - now rewrite (proj1 (proj2 (sendMessage_frame (view s) uuid now s))).
  - now rewrite (proj1 (proj2 (sendMessages_frame (view s) calls s))).
  - unfold relay_settled.
    destruct (nth_error (sending s) n) as [[t um | t p]|]; try exact Hin.
    now destruct (assistantResponse r).
  - unfold insert_settled.
    destruct (nth_error (sending s) n) as [[t um | t p]|]; try exact Hin.
    destruct v; simpl; [|exact Hin].
    apply in_or_app. now left.
  - unfold history_settled.
    destruct (nth_error (loads s) n) as [answer|]; [|exact Hin].
    now destruct (error answer).
Qed.

Lemma run_user (events : list Event) (s : Session) :
  user (run s events) = user s.
Proof.
  unfold run. revert s.
  induction events as [|e events IH]; simpl; intros s; [reflexivity|].
  now rewrite IH, step_user.
Qed.

Lemma run_store (events : list Event) (s : Session) (m : ChatMessage) :
  In m (store s) -> In m (store (run s events)).
Proof.
  unfold run. revert s.
  induction events as [|e events IH]; simpl; intros s Hin; [exact Hin|].
  apply IH. now apply step_store.
Qed.

Lemma loadHistory_messages (s : Session) :
  messages (view (loadHistory s)) = store_select (store s) (user s).
Proof.
  unfold loadHistory, loadChatHistory, history_settled. cbn [loads].
  rewrite nth_error_last. reflexivity.
Qed.

(** C8.  An exchange that the success path of a submission has written
    to the store is in the list that any later [loadChatHistory] for the
    same owner produces, whatever the session did in between, under the
    store's identifier and with the prompt and the reply that were
    written. *)
Theorem persisted_exchange_reloads
    (uuid : string) (now : Z) (r : Fetched) (answer : Js.value)
    (new_id : string) (at_time : Z) (events : list Event) (s : Session) :
  trim (inputMessage (view s)) <> ""%string ->
  loading (view s) = false ->
  assistantResponse r = Ok answer ->
  let saved := submission uuid now r (Commit new_id at_time) s in
  let reloaded := loadHistory (run saved events) in
  In (StoreInsert (payload s answer)) (effects saved) /\
  exists m,
    In m (store saved) /\
    In m (messages (view saved)) /\
    In m (messages (view reloaded)) /\
    id m = new_id /\
    user_id m = user s /\
    message m = trim (inputMessage (view s)) /\
    response m = answer.
Proof.
  intros Hinput Hl Hr saved reloaded. subst saved reloaded.
  rewrite loadHistory_messages, run_user.
  rewrite (submission_committed uuid now r s answer new_id at_time)
    by assumption.
  cbn [store view messages user effects store_insert fst snd].
  split; [apply in_or_app; right; now left|].
  eexists. split; [apply in_or_app; right; left; reflexivity|].
  split; [apply in_or_app; right; left; reflexivity|].
  split; [|repeat split].
  apply store_select_In. split; [|reflexivity].
  apply run_store. cbn [store]. apply in_or_app. right. now left.
Qed.

Lemma persisted_exchange_reloads_witness :
  let saved := submission "t1" 5 (replied "R") (Commit "s1" 9) typing in
  let reloaded := loadHistory (run saved [Typed "next"]) in
  In (StoreInsert (payload typing (Js.Str "R"))) (effects saved) /\
  exists m,
    In m (store saved) /\
    In m (messages (view saved)) /\
    In m (messages (view reloaded)) /\
    id m = "s1"%string /\
    user_id m = user typing /\
    message m = trim (inputMessage (view typing)) /\
    response m = Js.Str "R".
Proof.
  apply (persisted_exchange_reloads "t1" 5 (replied "R") (Js.Str "R")
           "s1" 9 [Typed "next"] typing).
  - discriminate.
  - reflexivity.
  - reflexivity.
Defined.

End ChatFacts.

(** * Further properties of the Relay Service *)

Module RelayMore.
Import Relay.

(** The shape of a run: the handler answers at once with one of four
    responses, or it suspends on the outbound call. *)
Lemma serve_cases (env : Env) (req : Request) :
  serve env req = Respond [] preflight \/
  (exists m, serve env req =
             Respond [["Error in lyra-chat function:"; m]] (internalError m)) \/
  serve env req = Respond [] missingFields \/
  serve env req =
    Respond [["WEBHOOK_AUTH_TOKEN is not configured"]] configurationError \/
  (exists token message userId,
      serve env req =
      Outbound (outboundCall token env message userId)
               (fun settled => caught (after_fetch settled))).
Proof.
  unfold serve.
  destruct (method req =? "OPTIONS"); [now left|].
  destruct (json req) as [parsed | m]; simpl; [|right; left; eauto].
  destruct (read parsed "message") as [message | m]; simpl;
    [|right; left; eauto].
  destruct (read parsed "userId") as [userId | m]; simpl;
    [|right; left; eauto].
  destruct (negb (Js.truthy message) || negb (Js.truthy userId));
    [now right; right; left|].
  destruct (WEBHOOK_AUTH_TOKEN env) as [token|]; [|now right; right; right; left].
  destruct (token =? ""); [now right; right; right; left|].
  right; right; right; right. eauto.
Qed.

(** What the resumed handler answers. *)
Lemma resumed_cases (settled : FetchResult) :
  (exists m, snd (caught (after_fetch settled)) = internalError m) \/
  snd (caught (after_fetch settled)) = relayFailure \/
  (exists reply, snd (caught (after_fetch settled)) = success reply).
Proof.
  destruct settled as [m | up]; simpl; [left; eauto|].
  destruct (ok up); simpl.
  - destruct (upstream_json up) as [n8nData | m]; simpl; [|left; eauto].
    destruct (read n8nData "response") as [reply | m]; simpl;
      [right; right; eauto | left; eauto].
  - destruct (text up); simpl; [right; left; reflexivity | left; eauto].
Qed.

(** X1.  Whatever the request, the configuration and the outcome of the
    outbound call, the answer carries the three permissive cross-origin
    headers; and every answer but the preflight's is declared as JSON. *)
Theorem cors_on_every_answer
    (env : Env) (req : Request) (settled : FetchResult) :
  let r := answer (serve env req) settled in
  incl corsHeaders (headers r) /\
  (r <> preflight -> In ("Content-Type", "application/json") (headers r)).
Proof.
  assert (forall r, headers r = jsonHeaders ->
            incl corsHeaders (headers r) /\
            (r <> preflight ->
             In ("Content-Type", "application/json") (headers r))) as Hjson.
  { intros r ->. split.
    - unfold jsonHeaders. apply incl_appl, incl_refl.
    - intros _. unfold jsonHeaders. apply in_or_app. right. now left. }
  cbv zeta.
  destruct (serve_cases env req)
    as [-> | [(m & ->) | [-> | [-> | (token & message & userId & ->)]]]];
    simpl answer.
  - split; [apply incl_refl | congruence].
  - now apply Hjson.
  - now apply Hjson.
  - now apply Hjson.
  - destruct (resumed_cases settled) as [(m & ->) | [-> | (reply & ->)]];
      now apply Hjson.
Qed.

(** X2.  The outbound call is made only for a request whose two fields
    were read and are truthy and only with a configured, non-empty
    secret; it is a POST to the fixed endpoint that carries the secret in
    the [WEBHOOK_AUTH_TOKEN] header and hands the two fields, with the
    time of the call, to [JSON.stringify].  The endpoint reads each
    field as JSON carries it: unchanged when it holds no number that is
    not finite (a string, as the contract has it, always is), [null] in
    place of such a number. *)
Theorem outbound_call_authenticated
    (env : Env) (req : Request) (call : OutboundCall) :
  In call (outbound_calls (serve env req)) ->
  exists parsed message userId token,
    json req = Ok parsed /\
    Js.get parsed "message" = Some message /\
    Js.get parsed "userId" = Some userId /\
    Js.truthy message = true /\ Js.truthy userId = true /\
    WEBHOOK_AUTH_TOKEN env = Some token /\ token <> "" /\
    url call = N8N_WEBHOOK_URL /\
    call_method call = "POST" /\
    In ("WEBHOOK_AUTH_TOKEN", token) (call_headers call) /\
    call_body call = Js.Obj [("message", message);
                             ("userId", userId);
                             ("timestamp", Js.Str (now env))] /\
    forwarded call = Js.Obj [("message", Js.wire message);
                             ("userId", Js.wire userId);
                             ("timestamp", Js.Str (now env))] /\
    (Js.plain message = true -> Js.wire message = message) /\
    (Js.plain userId = true -> Js.wire userId = userId) /\
    (forall text, message = Js.Str text -> Js.wire message = message) /\
    (forall negative, message = Js.Infinite negative ->
                      Js.wire message = Js.Null).
Proof.
  unfold serve, read.
  destruct (method req =? "OPTIONS"); [intros []|].
  destruct (json req) as [parsed | m]; simpl; [|intros []].
  destruct (Js.get parsed "message") as [message|] eqn:Hm; simpl; [|intros []].
  destruct (Js.get parsed "userId") as [userId|] eqn:Hu; simpl; [|intros []].
  destruct (Js.truthy message) eqn:Tm; simpl; [|intros []].
  destruct (Js.truthy userId) eqn:Tu; simpl; [|intros []].
  destruct (WEBHOOK_AUTH_TOKEN env) as [token|]; [|intros []].
  destruct (String.eqb_spec token "") as [E | N]; [intros []|].
  intros [<- | []].
  exists parsed, message, userId, token.
  assert (forwarded (outboundCall token env message userId) =
          Js.Obj [("message", Js.wire message);
                  ("userId", Js.wire userId);
                  ("timestamp", Js.Str (now env))]) as Hfw.
  { unfold forwarded, outboundCall. cbn [call_body].
    destruct message; try discriminate Tm;
      destruct userId; try discriminate Tu; reflexivity. }
  rewrite Hfw. cbn [url call_method call_headers call_body outboundCall].
  repeat (split; [solve [auto | now left | now right; left]|]).
  split; [apply JsFacts.wire_plain|].
  split; [apply JsFacts.wire_plain|].
  split; [now intros text ->|]. now intros negative ->.
Qed.

Lemma outbound_call_authenticated_witness :
  let call := outboundCall "s3cret" configured (Js.Str "hello") (Js.Str "u1") in
  exists parsed message userId token,
    json (post hello) = Ok parsed /\
    Js.get parsed "message" = Some message /\
    Js.get parsed "userId" = Some userId /\
    Js.truthy message = true /\ Js.truthy userId = true /\
    WEBHOOK_AUTH_TOKEN configured = Some token /\ token <> "" /\
    url call = N8N_WEBHOOK_URL /\
    call_method call = "POST" /\
    In ("WEBHOOK_AUTH_TOKEN", token) (call_headers call) /\
    call_body call = Js.Obj [("message", message);
                             ("userId", userId);
                             ("timestamp", Js.Str (now configured))] /\
    forwarded call = Js.Obj [("message", Js.wire message);
                             ("userId", Js.wire userId);
                             ("timestamp", Js.Str (now configured))] /\
    (Js.plain message = true -> Js.wire message = message) /\
    (Js.plain userId = true -> Js.wire userId = userId) /\
    (forall text, message = Js.Str text -> Js.wire message = message) /\
    (forall negative, message = Js.Infinite negative ->
                      Js.wire message = Js.Null).
Proof.
  intros call.
  apply (outbound_call_authenticated configured (post hello) call).
  left. reflexivity.
Defined.

(** X3.  When the external endpoint answers with an error status, the
    client gets status 502 and the fixed generic body, the same whatever
    the endpoint said; what the endpoint said goes to the server's log
    only. *)
Theorem upstream_failure_is_generic
    (env : Env) (req : Request) (call : OutboundCall)
    (resume : FetchResult -> list LogLine * Response)
    (up : Upstream) (errorText : string) :
  serve env req = Outbound call resume ->
  ok up = false ->
  text up = Ok errorText ->
  let r := answer (serve env req) (Resolved up) in
  status r = 502%Z /\
  body r = Some (Js.Obj
    [("success", Js.Bool false);
     ("response", Js.Str "Failed to process your message. Please try again.")]) /\
  logged (serve env req) (Resolved up) = [["n8n webhook failed:"; errorText]].
Proof.
  intros Hserve Hok Htext r. subst r.
  rewrite Hserve. simpl.
  rewrite (RelayFacts.serve_outbound env req call resume Hserve). simpl.
  rewrite Hok, Htext. simpl. repeat split.
Qed.

Lemma upstream_failure_is_generic_witness :
  let up := {| ok := false;
               text := Ok "workflow crashed";
               upstream_json := Throw "not read" |} in
  let r := answer (serve configured (post hello)) (Resolved up) in
  status r = 502%Z /\
  body r = Some (Js.Obj
    [("success", Js.Bool false);
     ("response", Js.Str "Failed to process your message. Please try again.")]) /\
  logged (serve configured (post hello)) (Resolved up)
    = [["n8n webhook failed:"; "workflow crashed"]].
Proof.
  intros up.
  apply (upstream_failure_is_generic configured (post hello)
           (outboundCall "s3cret" configured (Js.Str "hello") (Js.Str "u1"))
           (fun settled => caught (after_fetch settled)) up "workflow crashed");
    reflexivity.
Defined.

(** X4.  When the outbound call itself is rejected (the endpoint cannot
    be reached), the client gets the catch-all answer, status 500 with
    [{error: "Internal server error", details: <the error's message>}],
    not the 502 answer of an upstream failure. *)
Theorem unreachable_endpoint_is_internal_error
    (env : Env) (req : Request) (call : OutboundCall)
    (resume : FetchResult -> list LogLine * Response) (m : string) :
  serve env req = Outbound call resume ->
  let r := answer (serve env req) (Rejected m) in
  status r = 500%Z /\
  body r = Some (Js.Obj [("error", Js.Str "Internal server error");
                         ("details", Js.Str m)]) /\
  r <> relayFailure /\
  logged (serve env req) (Rejected m) = [["Error in lyra-chat function:"; m]].
Proof.
  intros Hserve r. subst r.
  rewrite Hserve. simpl.
  rewrite (RelayFacts.serve_outbound env req call resume Hserve). simpl.
  repeat split. discriminate.
Qed.

Lemma unreachable_endpoint_is_internal_error_witness :
  let r := answer (serve configured (post hello)) (Rejected "connection refused") in
  status r = 500%Z /\
  body r = Some (Js.Obj [("error", Js.Str "Internal server error");
                         ("details", Js.Str "connection refused")]) /\
  r <> relayFailure /\
  logged (serve configured (post hello)) (Rejected "connection refused")
    = [["Error in lyra-chat function:"; "connection refused"]].
Proof.
  apply (unreachable_endpoint_is_internal_error configured (post hello)
           (outboundCall "s3cret" configured (Js.Str "hello") (Js.Str "u1"))
           (fun settled => caught (after_fetch settled)) "connection refused").
  reflexivity.
Defined.

(** X5.  A request other than the preflight whose body cannot be read as
    JSON, or reads as [null], is answered with status 500 and the
    catch-all body (carrying the parse error's message when the body did
    not parse), whatever the configuration, and no outbound call is
    made. *)
Theorem unreadable_body_is_internal_error
    (env : Env) (req : Request) (settled : FetchResult) :
  (method req =? "OPTIONS") = false ->
  (exists m, json req = Throw m) \/ json req = Ok Js.Null ->
  let r := answer (serve env req) settled in
  status r = 500%Z /\
  (exists details,
      body r = Some (Js.Obj [("error", Js.Str "Internal server error");
                             ("details", Js.Str details)]) /\
      forall m, json req = Throw m -> details = m) /\
  outbound_calls (serve env req) = [].
Proof.
  intros Hm Hbody r. subst r. unfold serve. rewrite Hm.
  destruct Hbody as [(m & ->) | ->]; simpl.
  - split; [reflexivity|]. split; [|reflexivity].
    exists m. split; [reflexivity|]. intros m' H. now injection H.
  - split; [reflexivity|]. split; [|reflexivity].
    eexists. split; [reflexivity|]. discriminate.
Qed.

Lemma unreadable_body_is_internal_error_witness :
  let req := {| method := "POST"; json := Throw "Unexpected end of JSON input" |} in
  let r := answer (serve unconfigured req) (Rejected "unreachable") in
  status r = 500%Z /\
  (exists details,
      body r = Some (Js.Obj [("error", Js.Str "Internal server error");
                             ("details", Js.Str details)]) /\
      forall m, json req = Throw m -> details = m) /\
  outbound_calls (serve unconfigured req) = [].
Proof.
  intros req.
  apply (unreadable_body_is_internal_error unconfigured req
           (Rejected "unreachable")).
  - reflexivity.
  - left. exists "Unexpected end of JSON input". reflexivity.
Defined.

(** X6.  The handler never reports success on its own: an answer
    [{success: true, response: reply}] is given only after the outbound
    call was made and the external endpoint answered with a success
    status and a readable body.  The [reply] it answers with is the
    upstream field or the placeholder and is never empty; the client
    reads it as JSON carries it, which is never empty either unless the
    reply is a number that is not finite, read as [null]. *)
Theorem success_only_after_upstream
    (env : Env) (req : Request) (settled : FetchResult) (reply : Js.value) :
  answer (serve env req) settled = success reply ->
  outbound_calls (serve env req) <> [] /\
  Js.truthy reply = true /\
  (exists up n8nData field,
    settled = Resolved up /\
    ok up = true /\
    upstream_json up = Ok n8nData /\
    Js.get n8nData "response" = Some field /\
    reply = Js.or field (Js.Str placeholder)) /\
  written (answer (serve env req) settled) =
    Some (Js.Obj [("success", Js.Bool true); ("response", Js.wire reply)]) /\
  ((forall negative, reply <> Js.Infinite negative) ->
   Js.truthy (Js.wire reply) = true) /\
  (forall negative, reply = Js.Infinite negative -> Js.wire reply = Js.Null).
Proof.
  intros Hans.
  assert (outbound_calls (serve env req) <> [] /\
          Js.truthy reply = true /\
          exists up n8nData field,
            settled = Resolved up /\
            ok up = true /\
            upstream_json up = Ok n8nData /\
            Js.get n8nData "response" = Some field /\
            reply = Js.or field (Js.Str placeholder)) as (Hcall & T & Hup).
  { revert Hans.
    destruct (serve_cases env req)
      as [-> | [(m & ->) | [-> | [-> | (token & message & userId & ->)]]]];
      simpl answer; try discriminate.
    destruct settled as [m | up]; simpl; [discriminate|].
    destruct (ok up) eqn:Hok; simpl.
    - destruct (upstream_json up) as [n8nData | m] eqn:Hj; simpl;
        [|discriminate].
      unfold read.
      destruct (Js.get n8nData "response") as [field|] eqn:Hf; simpl;
        [|discriminate].
      intros H. injection H as <-.
      split; [discriminate|]. split.
      + unfold Js.or. destruct (Js.truthy field) eqn:T; [exact T | reflexivity].
      + exists up, n8nData, field. auto.
    - destruct (text up); simpl; discriminate. }
  split; [exact Hcall|]. split; [exact T|]. split; [exact Hup|].
  rewrite Hans. split.
  { unfold written, success. cbn [body option_map].
    now rewrite (JsFacts.wire_reply true reply T). }
  split; [now apply JsFacts.wire_truthy | now intros negative ->].
Qed.

Lemma success_only_after_upstream_witness :
  let settled := upstream_ok "{}" (Ok (Js.Obj [])) in
  let reply := Js.Str placeholder in
  outbound_calls (serve configured (post hello)) <> [] /\
  Js.truthy reply = true /\
  (exists up n8nData field,
    settled = Resolved up /\
    ok up = true /\
    upstream_json up = Ok n8nData /\
    Js.get n8nData "response" = Some field /\
    reply = Js.or field (Js.Str placeholder)) /\
  written (answer (serve configured (post hello)) settled) =
    Some (Js.Obj [("success", Js.Bool true); ("response", Js.wire reply)]) /\
  ((forall negative, reply <> Js.Infinite negative) ->
   Js.truthy (Js.wire reply) = true) /\
  (forall negative, reply = Js.Infinite negative -> Js.wire reply = Js.Null).
Proof.
  intros settled reply.
  apply (success_only_after_upstream configured (post hello) settled reply).
  reflexivity.
Defined.

End RelayMore.

(** * Further properties of the Conversation Controller *)

Module ChatMore.
Import Chat ChatView.
Local Open Scope list_scope.

(** ** The guard of [sendMessage] *)

Lemma length_append (a b : string) :
  String.length (a ++ b) = (String.length a + String.length b)%nat.
Proof. induction a as [|c a IH]; simpl; congruence. Qed.

Lemma strip_white_space (w rest : string) :
  In w white_space ->
  strip white_space (w ++ rest) = Some rest /\ (1 <= String.length w)%nat.
Proof.
  unfold white_space. intros Hin.
  repeat (destruct Hin as [<- | Hin]; [split; [reflexivity | simpl; lia]|]).
  destruct Hin.
Qed.

Lemma strip_all_blank (s : string) :
  Blank s ->
  forall fuel, (String.length s <= fuel)%nat ->
               strip_all white_space fuel s = ""%string.
Proof.
  induction 1 as [|w rest Hw Hrest IH]; intros fuel Hfuel.
  - destruct fuel; reflexivity.
  - destruct (strip_white_space w rest Hw) as [Hstrip Hlen].
    rewrite length_append in Hfuel.
    destruct fuel as [|fuel]; [lia|].
    cbn [strip_all]. rewrite Hstrip. apply IH. lia.
Qed.

Lemma trim_blank (s : string) : Blank s -> trim s = ""%string.
Proof.
  intros H. unfold trim, trim_start.
  rewrite (strip_all_blank s H) by lia. reflexivity.
Qed.

Lemma sendMessage_rejected_iff (shown : State) (uuid : string) (now : Z)
    (s : Session) :
  loading (view s) = loading shown ->
  (sendMessage shown uuid now s = s <->
   trim (inputMessage shown) = ""%string \/ loading shown = true).
Proof.
  intros Hsame. unfold sendMessage.
  destruct (String.eqb_spec (trim (inputMessage shown)) "") as [E | N];
    simpl.
  - intuition.
  - destruct (loading shown) eqn:Hl; simpl.
    + intuition.
    + split.
      * intros H. apply (f_equal (fun x => loading (view x))) in H.
        simpl in H. congruence.
      * intros [H | H]; [contradiction | discriminate].
Qed.

(** X7.  An input that is empty or made of white space only (any of the
    code points [trim] strips, U+00A0 and the like included) is never
    submitted: whatever the state, a call of [sendMessage] through the
    handler of a render that shows such an input returns at its guard
    and leaves the list, the input field, the flags and the issued
    effects as they were. *)
Theorem blank_input_never_submitted
    (shown : State) (uuid : string) (now : Z) (s : Session) :
  Blank (inputMessage shown) ->
  sendMessage shown uuid now s = s /\
  effects (sendMessage shown uuid now s) = effects s /\
  messages (view (sendMessage shown uuid now s)) = messages (view s).
Proof.
  intros Hblank.
  assert (sendMessage shown uuid now s = s) as ->.
  { unfold sendMessage. now rewrite (trim_blank _ Hblank). }
  auto.
Qed.

Lemma blank_input_never_submitted_witness :
  let s := run (init "u1" []) [Typed (" " ++ bytes [194; 160] ++ bytes [9])] in
  sendMessage (view s) "t1" 5 s = s /\
  effects (sendMessage (view s) "t1" 5 s) = effects s /\
  messages (view (sendMessage (view s) "t1" 5 s)) = messages (view s).
Proof.
  intros s.
  apply (blank_input_never_submitted (view s) "t1" 5 s).
  apply (blank_more " "); [simpl; tauto|].
  apply (blank_more (bytes [194; 160])); [vm_compute; tauto|].
  apply (blank_more (bytes [9]) ""); [vm_compute; tauto|].
  apply blank_empty.
Defined.

(** X8.  Once the history has loaded, the Send button is disabled
    exactly when [sendMessage] would return at its guard: what the form
    offers and what the handler accepts agree. *)
Theorem send_button_matches_guard
    (s : Session) (welcome : bool) (bubbles : list Bubble)
    (typing inputDisabled sendDisabled : bool) :
  render (view s) =
    Conversation welcome bubbles typing inputDisabled sendDisabled ->
  (sendDisabled = true <-> forall uuid now, sendMessage (view s) uuid now s = s).
Proof.
  unfold render. destruct (loadingHistory (view s)); [discriminate|].
  intros H. injection H as _ _ _ _ <-.
  assert (loading (view s) || (trim (inputMessage (view s)) =? "")%string
          = true <->
          trim (inputMessage (view s)) = ""%string \/ loading (view s) = true)
    as Hguard.
  { rewrite orb_true_iff, String.eqb_eq. tauto. }
  rewrite Hguard. split.
  - intros H uuid now. now apply sendMessage_rejected_iff.
  - intros H. apply (sendMessage_rejected_iff (view s) ""%string 0%Z s);
      [reflexivity | apply H].
Qed.

Lemma send_button_matches_guard_witness :
  let s := run typing [LoadStarted None; LoadSettled 0] in
  false = true <-> forall uuid now, sendMessage (view s) uuid now s = s.
Proof.
  intros s.
  apply (send_button_matches_guard s true [] false false false).
  reflexivity.
Defined.

(** X9.  As long as no two calls of [sendMessage] are made through the
    handler of one render, the typing indicator is shown and the input
    is disabled exactly while a submission is suspended, and Send is
    disabled all that time. *)
Theorem typing_indicator_iff_pending
    (s : Session) (welcome : bool) (bubbles : list Bubble)
    (typing inputDisabled sendDisabled : bool) :
  reachable_in_turn s ->
  render (view s) =
    Conversation welcome bubbles typing inputDisabled sendDisabled ->
  (typing = true <-> pending s) /\
  (inputDisabled = true <-> pending s) /\
  (pending s -> sendDisabled = true).
Proof.
  intros Hreach. unfold render.
  destruct (loadingHistory (view s)); [discriminate|].
  intros H. injection H as _ _ <- <- <-. unfold pending.
  destruct (ChatFacts.in_turn_single_flight s Hreach)
    as [[Hs Hl] | (call & Hs & Hl)]; rewrite Hs, Hl; simpl.
  - repeat split; try discriminate; intros H; now contradiction H.
  - repeat split; auto; discriminate.
Qed.

Lemma typing_indicator_iff_pending_witness :
  let s := run waiting [LoadStarted None; LoadSettled 0] in
  (true = true <-> pending s) /\
  (true = true <-> pending s) /\
  (pending s -> true = true).
Proof.
  intros s.
  apply (typing_indicator_iff_pending s true [] true true true).
  - exists "u1"%string, [],
      [Typed " hi "; Submit "t1" 5; LoadStarted None; LoadSettled 0].
    split; reflexivity.
  - reflexivity.
Defined.

(** ** Reloading *)

(** X10.  A failed turn lives in the list only: after a submission that
    failed, a reload that the store answers gives the list it would have
    given had the submission never been made, and when the temporary id
    is not an id of the table no entry of that list carries it. *)
Theorem failed_turn_gone_after_reload
    (uuid : string) (now : Z) (r : Fetched) (v : Verdict) (s : Session) :
  trim (inputMessage (view s)) <> ""%string ->
  loading (view s) = false ->
  Failure r v ->
  let failed := submission uuid now r v s in
  messages (view (loadHistory failed)) = messages (view (loadHistory s)) /\
  ((forall m, In m (store s) -> id m <> uuid) ->
   forall m, In m (messages (view (loadHistory failed))) -> id m <> uuid).
Proof.
  intros Hinput Hl Hfail failed.
  assert (store failed = store s /\ user failed = user s) as [Hstore Huser].
  { subst failed.
    destruct (ChatFacts.failure_cases r v Hfail)
      as [(e & Hr) | (answer & e & Hr & ->)].
    - now rewrite (ChatFacts.submission_thrown uuid now r v s e) by assumption.
    - now rewrite (ChatFacts.submission_refused uuid now r s answer e)
        by assumption. }
  rewrite !ChatFacts.loadHistory_messages, Hstore, Huser.
  split; [reflexivity|].
  intros Hfresh m Hin. apply ChatFacts.store_select_In in Hin.
  apply Hfresh, Hin.
Qed.

Lemma failed_turn_gone_after_reload_witness :
  let failed := submission "t1" 5 bad_gateway (Commit "s1" 9) typing in
  messages (view (loadHistory failed)) = messages (view (loadHistory typing)) /\
  ((forall m, In m (store typing) -> id m <> "t1"%string) ->
   forall m, In m (messages (view (loadHistory failed))) -> id m <> "t1"%string).
Proof.
  apply (failed_turn_gone_after_reload "t1" 5 bad_gateway (Commit "s1" 9) typing).
  - discriminate.
  - reflexivity.
  - eapply http_failure; reflexivity.
Defined.

(** X11.  [loadChatHistory] fails soft and succeeds wholesale: when the
    store answers with an error the list is left as it was and the error
    is logged; when it answers with rows the list becomes exactly those
    rows, whatever it held before; either way the loading screen is
    taken down and the state of a pending submission is not touched. *)
Theorem history_load_outcomes (failure : option string) (s : Session) :
  let s' := history_settled (length (loads s)) (loadChatHistory failure s) in
  loadingHistory (view s') = false /\
  loading (view s') = loading (view s) /\
  sending s' = sending s /\
  store s' = store s /\
  match failure with
  | Some e =>
      messages (view s') = messages (view s) /\
      effects s' = effects s ++ [StoreSelect (user s);
                                 ConsoleError "Error loading chat history:" e]
  | None =>
      messages (view s') = store_select (store s) (user s) /\
      effects s' = effects s ++ [StoreSelect (user s)]
  end.
Proof.
  unfold loadChatHistory, history_settled. cbn [loads].
  rewrite ChatFacts.nth_error_last.
  destruct failure as [e|]; cbn.
  - rewrite <- app_assoc. repeat split.
  - repeat split.
Qed.

(** ** What a submission issues *)

(** X12.  An accepted submission calls the relay exactly once and writes
    to the store at most once, and it writes exactly when the relay
    gave a reply: there is no retry on any path. *)
Theorem one_attempt_per_submission
    (uuid : string) (now : Z) (r : Fetched) (v : Verdict) (s : Session) :
  trim (inputMessage (view s)) <> ""%string ->
  loading (view s) = false ->
  exists issued,
    effects (submission uuid now r v s) = effects s ++ issued /\
    length (filter is_relay_call issued) = 1%nat /\
    (length (filter is_store_insert issued) <= 1)%nat /\
    (length (filter is_store_insert issued) = 1%nat <->
     exists answer, assistantResponse r = Ok answer).
Proof.
  intros Hinput Hl.
  destruct (assistantResponse r) as [answer | e] eqn:Hr.
  - destruct v as [new_id at_time | e].
    + rewrite (ChatFacts.submission_committed uuid now r s answer new_id at_time)
        by assumption.
      cbn [effects]. rewrite <- app_assoc. eexists. split; [reflexivity|].
      simpl. repeat split; eauto.
    + rewrite (ChatFacts.submission_refused uuid now r s answer e)
        by assumption.
      cbn [effects]. rewrite <- !app_assoc. eexists. split; [reflexivity|].
      simpl. repeat split; eauto.
  - rewrite (ChatFacts.submission_thrown uuid now r v s e) by assumption.
    cbn [effects]. rewrite <- app_assoc. eexists. split; [reflexivity|].
    simpl. repeat split; auto.
    + discriminate.
    + intros (answer & H). discriminate H.
Qed.

Lemma one_attempt_per_submission_witness :
  exists issued,
    effects (submission "t1" 5 bad_gateway (Commit "s1" 9) typing)
      = effects typing ++ issued /\
    length (filter is_relay_call issued) = 1%nat /\
    (length (filter is_store_insert issued) <= 1)%nat /\
    (length (filter is_store_insert issued) = 1%nat <->
     exists answer, assistantResponse bad_gateway = Ok answer).
Proof.
  apply (one_attempt_per_submission "t1" 5 bad_gateway (Commit "s1" 9) typing).
  - discriminate.
  - reflexivity.
Defined.

(** ** What is written to the store *)

Lemma In_set_nth {A : Type} (n : nat) (y x : A) (l : list A) :
  In x (set_nth n y l) -> x = y \/ In x l.
Proof.
  revert n. induction l as [|a l IH]; intros [|n]; simpl; try tauto.
  - intros [<- | H]; auto.
  - intros [<- | H]; auto. destruct (IH n H); auto.
Qed.

Lemma In_remove_nth {A : Type} (n : nat) (x : A) (l : list A) :
  In x (remove_nth n l) -> In x l.
Proof.
  revert n. induction l as [|a l IH]; intros [|n]; simpl; try tauto.
  intros [<- | H]; eauto.
Qed.

Lemma disciplined_init (owner : string) (table : list ChatMessage) :
  disciplined (init owner table).
Proof.
  unfold disciplined; simpl. split; [|split]; intros; contradiction.
Qed.

Lemma disciplined_caught (t : ChatMessage) (e : string) (n : nat)
    (s : Session) :
  disciplined s -> disciplined (caught t e n s).
Proof.
  intros (He & Hr & Hi). unfold disciplined, caught; simpl.
  split; [|split].
  - intros p Hin. apply in_app_or in Hin.
    destruct Hin as [Hin | [Hin | []]]; [|discriminate].
    now apply He.
  - intros t' um Hin. apply In_remove_nth in Hin. eauto.
  - intros t' p Hin. apply In_remove_nth in Hin. now apply (Hi t').
Qed.

Lemma disciplined_send (shown : State) (uuid : string) (now : Z)
    (s : Session) :
  disciplined s -> disciplined (sendMessage shown uuid now s).
Proof.
  intros Hd. unfold sendMessage.
  destruct (String.eqb_spec (trim (inputMessage shown)) "") as [E | N];
    simpl; [exact Hd|].
  destruct (loading shown); simpl; [exact Hd|].
  destruct Hd as (He & Hr & Hi). unfold disciplined; simpl.
  split; [|split].
  - intros p Hin. apply in_app_or in Hin.
    destruct Hin as [Hin | [Hin | []]]; [|discriminate]. now apply He.
  - intros t um Hin. apply in_app_or in Hin.
    destruct Hin as [Hin | [Hin | []]]; [eauto|].
    now injection Hin as _ <-.
  - intros t p Hin. apply in_app_or in Hin.
    destruct Hin as [Hin | [Hin | []]]; [eauto | discriminate].
Qed.

Lemma disciplined_sends (shown : State) (calls : list (string * Z))
    (s : Session) :
  disciplined s ->
  disciplined (fold_left (fun acc call =>
                            sendMessage shown (fst call) (snd call) acc)
                         calls s).
Proof.
  revert s. induction calls as [|call calls IH]; simpl; intros s Hd;
    [exact Hd|].
  apply IH. now apply disciplined_send.
Qed.

Lemma disciplined_step (s : Session) (e : Event) :
  disciplined s -> disciplined (step s e).
Proof.
  intros Hd.
  destruct e as [value | uuid now | calls | n r | n v | failure | n]; simpl.
  - exact Hd.
  - now apply disciplined_send.
  - now apply disciplined_sends.
  - unfold relay_settled.
    destruct (nth_error (sending s) n) as [[t um | t p]|] eqn:Hn;
      try exact Hd.
    destruct (assistantResponse r) as [answer | m] eqn:Hr;
      [|now apply disciplined_caught].
    destruct Hd as (He & Hrel & Hi).
    assert (well_formed (user s)
              {| payload_user_id := user s;
                 payload_message := um;
                 payload_response := answer |}) as Hwf.
    { split; [reflexivity|]. split; simpl.
      - apply (Hrel t). now apply nth_error_In with n.
      - now apply (ChatFacts.assistantResponse_truthy r). }
    unfold disciplined; simpl. split; [|split].
    + intros p Hin. apply in_app_or in Hin.
      destruct Hin as [Hin | [Hin | []]]; [now apply He|].
      now injection Hin as <-.
    + intros t' um' Hin. apply In_set_nth in Hin.
      destruct Hin as [Hin | Hin]; [discriminate | eauto].
    + intros t' p Hin. apply In_set_nth in Hin.
      destruct Hin as [Hin | Hin]; [|eauto].
      now injection Hin as _ ->.
  - unfold insert_settled.
    destruct (nth_error (sending s) n) as [[t um | t p]|] eqn:Hn;
      try exact Hd.
    destruct v as [new_id at_time | m]; [|now apply disciplined_caught].
    destruct Hd as (He & Hrel & Hi). unfold disciplined; simpl.
    split; [exact He|]. split.
    + intros t' um Hin. apply In_remove_nth in Hin. eauto.
    + intros t' p' Hin. apply In_remove_nth in Hin. eauto.
  - destruct Hd as (He & Hrel & Hi).
    unfold disciplined, loadChatHistory; simpl. split; [|split]; auto.
    intros p Hin. apply in_app_or in Hin.
    destruct Hin as [Hin | [Hin | []]]; [now apply He | discriminate].
  - unfold history_settled.
    destruct (nth_error (loads s) n) as [answer|]; [|exact Hd].
    destruct Hd as (He & Hrel & Hi).
    destruct (error answer); unfold disciplined; simpl;
      (split; [|split]; auto).
    intros p Hin. apply in_app_or in Hin.
    destruct Hin as [Hin | [Hin | []]]; [now apply He | discriminate].
Qed.

Lemma disciplined_run (events : list Event) (s : Session) :
  disciplined s -> disciplined (run s events).
Proof.
  unfold run. revert s.
  induction events as [|e events IH]; simpl; intros s Hd; [exact Hd|].
  apply IH. now apply disciplined_step.
Qed.

(** X13.  Whatever the session has been through, every write it has
    issued to the store is for the signed-in user, with a prompt that is
    not empty and a reply that is not empty: a pending or failed turn,
    or a turn with no text, is never sent to the store. *)
Theorem store_writes_well_formed (s : Session) (p : InsertPayload) :
  reachable s ->
  In (StoreInsert p) (effects s) ->
  payload_user_id p = user s /\
  payload_message p <> ""%string /\
  Js.truthy (payload_response p) = true /\
  payload_response p <> Js.Null /\
  payload_response p <> Js.Str "".
Proof.
  intros (owner & table & events & ->) Hin.
  destruct (disciplined_run events (init owner table)
              (disciplined_init owner table)) as (He & _ & _).
  destruct (He p Hin) as (Hu & Hm & Ht).
  repeat split; auto; intros E; rewrite E in Ht; discriminate.
Qed.

Lemma store_writes_well_formed_witness :
  let s := submission "t1" 5 (replied "R") (Commit "s1" 9) typing in
  let p := payload typing (Js.Str "R") in
  payload_user_id p = user s /\
  payload_message p <> ""%string /\
  Js.truthy (payload_response p) = true /\
  payload_response p <> Js.Null /\
  payload_response p <> Js.Str "".
Proof.
  intros s p.
  apply (store_writes_well_formed s p).
  - exists "u1"%string, [],
      [Typed " hi "; Submit "t1" 5; RelaySettled 0 (replied "R");
       InsertSettled 0 (Commit "s1" 9)].
    reflexivity.
  - right. left. reflexivity.
Defined.

End ChatMore.

(** * The component in front of the handler *)

Module WireFacts.

(** X14.  When the component's call is answered by the handler, the
    component either takes the reply it reads in the handler's success
    body, or it throws "Failed to send message" on a status other than
    200 and shows the error entry: every refusal of the handler (400,
    500, 502) looks the same to the user.  The reply it reads is the
    handler's reply as JSON carries it; the component's own fallback
    text is used in one case only, a reply that is a number that is not
    finite, which is written as [null]. *)
Theorem relay_answers_as_seen
    (env : Relay.Env) (settled : Relay.FetchResult)
    (userMessage userId : string) :
  let r := Relay.answer (Relay.serve env (Wire.request userMessage userId))
                        settled in
  let seen := Chat.assistantResponse
                (Wire.relayed env settled userMessage userId) in
  (exists reply,
      r = Relay.success reply /\ Js.truthy reply = true /\
      seen = Ok (Js.or (Js.wire reply) (Js.Str "No response received")) /\
      ((forall negative, reply <> Js.Infinite negative) ->
       seen = Ok (Js.wire reply)) /\
      (Js.plain reply = true -> seen = Ok reply) /\
      (forall negative, reply = Js.Infinite negative ->
       seen = Ok (Js.Str "No response received"))) \/
  (Relay.status r <> 200%Z /\ seen = Throw "Failed to send message").
Proof.
  cbv zeta. unfold Wire.relayed.
  destruct (RelayMore.serve_cases env (Wire.request userMessage userId))
    as [H | [(m & ->) | [-> | [-> | (token & message & userId' & ->)]]]].
  - exfalso. revert H. unfold Relay.serve. simpl.
    destruct (negb (negb (userMessage =? ""))
              || negb (negb (userId =? ""))); [discriminate|].
    destruct (Relay.WEBHOOK_AUTH_TOKEN env) as [token|]; [|discriminate].
    destruct (token =? ""); discriminate.
  - right. split; [discriminate | reflexivity].
  - right. split; [discriminate | reflexivity].
  - right. split; [discriminate | reflexivity].
  - simpl Relay.answer.
    destruct settled as [m | up]; simpl;
      [right; split; [discriminate | reflexivity]|].
    destruct (Relay.ok up); simpl.
    + destruct (Relay.upstream_json up) as [n8nData | m]; simpl;
        [|right; split; [discriminate | reflexivity]].
      destruct (read n8nData "response") as [field | m]; simpl;
        [|right; split; [discriminate | reflexivity]].
      left. set (reply := Js.or field (Js.Str Relay.placeholder)).
      assert (Js.truthy reply = true) as T.
      { subst reply. unfold Js.or.
        destruct (Js.truthy field) eqn:T; [exact T | reflexivity]. }
      exists reply. split; [reflexivity|]. split; [exact T|].
      clearbody reply.
      assert (Js.lookup "response"
                match reply with
                | Js.Undefined => []
                | _ => [("response", Js.wire reply)]
                end = Js.wire reply) as ->
        by (destruct reply; try discriminate T; reflexivity).
      split; [reflexivity|]. split; [|split].
      * intros Hfin. unfold Js.or.
        now rewrite (JsFacts.wire_truthy reply T Hfin).
      * intros Hplain. rewrite (JsFacts.wire_plain reply Hplain).
        unfold Js.or. now rewrite T.
      * intros negative ->. reflexivity.
    + destruct (Relay.text up); simpl;
        right; split; (discriminate || reflexivity).
Qed.

End WireFacts.

(** * The [Posts] page *)

Module PostsFacts.
Import Data PostsPage.
Local Open Scope list_scope.

Lemma status_eqb_eq (a b : Status) : status_eqb a b = true <-> a = b.
Proof. destruct a, b; simpl; split; congruence. Qed.

Lemma shown_counts (l : list PostWithAccount) :
  (length (List.filter (shown (only posted)) l)
   + length (List.filter (shown (only scheduled)) l)
   + length (List.filter (shown (only failed)) l))%nat = length l.
Proof.
  induction l as [|p l IH]; simpl; [reflexivity|].
  destruct (status (post p)); simpl; lia.
Qed.

(** X15.  The status tabs split the list: under "all" every post is
    listed; under a status exactly the posts of that status are listed,
    in the order of the list; and each post is listed under exactly one
    of the three statuses. *)
Theorem status_tabs_partition (st : State) :
  filteredPosts (setFilter all st) = posts st /\
  (forall s p,
      In p (filteredPosts (setFilter (only s) st)) <->
      In p (posts st) /\ status (post p) = s) /\
  (forall s,
      filteredPosts (setFilter (only s) st) =
      List.filter (fun p => status_eqb (status (post p)) s) (posts st)) /\
  (length (filteredPosts (setFilter (only posted) st))
   + length (filteredPosts (setFilter (only scheduled) st))
   + length (filteredPosts (setFilter (only failed) st)))%nat
  = length (posts st).
Proof.
  unfold filteredPosts, setFilter; simpl. repeat split.
  - induction (posts st) as [|p l IH]; simpl; congruence.
  - apply filter_In in H. tauto.
  - apply filter_In in H. now apply status_eqb_eq.
  - intros [Hin Hs]. apply filter_In. split; [exact Hin|].
    now apply status_eqb_eq.
  - apply shown_counts.
Qed.

Lemma loadPosts_answered
    (owner : string) (accountsData : list SocialAccount)
    (postsData : list Post) (st : State) :
  accountsData <> [] ->
  loadPosts owner {| data := Some accountsData; error := None |}
                  {| data := Some postsData; error := None |} st =
  ({| posts := map (with_account accountsData) postsData;
      loading := false;
      filter := filter st |},
   [SelectAccounts owner; SelectPosts (map id accountsData)]).
Proof.
  destruct accountsData; [contradiction | reflexivity].
Qed.

Lemma find_first {A : Type} (f : A -> bool) (l : list A) (x : A) :
  List.find f l = Some x ->
  exists before after,
    l = before ++ x :: after /\ f x = true /\
    forall y, In y before -> f y = false.
Proof.
  induction l as [|a l IH]; simpl; [discriminate|].
  destruct (f a) eqn:Ha.
  - intros H. injection H as <-. exists [], l. repeat split; auto.
    intros y [].
  - intros H. destruct (IH H) as (before & after & -> & Hx & Hb).
    exists (a :: before), after. repeat split; auto.
    intros y [<- | Hy]; auto.
Qed.

(** X16.  When both queries of [loadPosts] are answered and the user has
    accounts, the page lists the posts the store returned, in that
    order, each with the first of the user's accounts whose id is the
    post's [account_id] (no account before it in the list has that id);
    a post is left without an account only when no account of the user
    has that id. *)
Theorem loaded_posts_joined
    (owner : string) (accountsData : list SocialAccount)
    (postsData : list Post) (st : State) :
  accountsData <> [] ->
  let loaded := fst (loadPosts owner
                       {| data := Some accountsData; error := None |}
                       {| data := Some postsData; error := None |} st) in
  map post (posts loaded) = postsData /\
  (forall p acc,
      In p (posts loaded) -> account p = Some acc ->
      id acc = account_id (post p) /\
      exists before after,
        accountsData = before ++ acc :: after /\
        forall other, In other before -> id other <> account_id (post p)) /\
  (forall p,
      In p (posts loaded) -> account p = None ->
      forall acc, In acc accountsData -> id acc <> account_id (post p)).
Proof.
  intros Hne loaded. subst loaded.
  rewrite loadPosts_answered by exact Hne. cbn [fst posts].
  split; [|split].
  - rewrite map_map. unfold with_account. cbn [post]. apply map_id.
  - intros p acc Hin Hacc. apply in_map_iff in Hin.
    destruct Hin as (q & <- & _). unfold with_account in *.
    cbn [account post] in *. unfold find_account in Hacc.
    apply find_first in Hacc.
    destruct Hacc as (before & after & Hsplit & Heq & Hbefore).
    split; [now apply String.eqb_eq|].
    exists before, after. split; [exact Hsplit|].
    intros other Hother. apply String.eqb_neq. now apply Hbefore.
  - intros p Hin Hacc acc Hinacc. apply in_map_iff in Hin.
    destruct Hin as (q & <- & _). unfold with_account in *.
    cbn [account post] in *. unfold find_account in Hacc.
    apply (find_none _ _ Hacc) in Hinacc. cbn beta in Hinacc.
    now apply String.eqb_neq.
Qed.

Lemma loaded_posts_joined_witness :
  let sample key name :=
    {| id := key; user_id := "u1"; platform := TikTok;
       account_name := name; username := name;
       created_at := "2025-12-26"; updated_at := "2025-12-26" |} in
  let accountsData := [sample "a1" "first"; sample "a2" "other";
                       sample "a1" "second"] in
  let entry key owner_account :=
    {| post_id := key; account_id := owner_account; post_platform := "TikTok";
       content := "hello"; status := posted; scheduled_date := None;
       posted_date := Some "2025-12-27"; external_id := None;
       post_created_at := "2025-12-26"; post_updated_at := "2025-12-27" |} in
  let postsData := [entry "p1" "a1"; entry "p2" "a9"] in
  let loaded := fst (loadPosts "u1"
                       {| data := Some accountsData; error := None |}
                       {| data := Some postsData; error := None |}
                       {| posts := []; loading := true; filter := all |}) in
  map post (posts loaded) = postsData /\
  (forall p acc,
      In p (posts loaded) -> account p = Some acc ->
      id acc = account_id (post p) /\
      exists before after,
        accountsData = before ++ acc :: after /\
        forall other, In other before -> id other <> account_id (post p)) /\
  (forall p,
      In p (posts loaded) -> account p = None ->
      forall acc, In acc accountsData -> id acc <> account_id (post p)).
Proof.
  intros sample accountsData entry postsData.
  apply (loaded_posts_joined "u1" accountsData postsData
           {| posts := []; loading := true; filter := all |}).
  discriminate.
Defined.

(** X17.  [loadPosts] on its other paths: when the user has no account
    the list is emptied and the posts are not queried at all; when
    either query fails the list is left as it was and the error is
    logged; on every path the loading screen is taken down and the
    selected tab is kept. *)
Theorem loadPosts_edge_paths
    (owner : string) (accountsAnswer : Selected SocialAccount)
    (postsAnswer : Selected Post) (st : State) :
  let out := loadPosts owner accountsAnswer postsAnswer st in
  loading (fst out) = false /\
  filter (fst out) = filter st /\
  (error accountsAnswer = None ->
   data accountsAnswer = None \/ data accountsAnswer = Some [] ->
   posts (fst out) = [] /\ snd out = [SelectAccounts owner]) /\
  (forall e, error accountsAnswer = Some e ->
   posts (fst out) = posts st /\
   snd out = [SelectAccounts owner; ConsoleError "Error loading posts:" e]) /\
  (forall e accountsData,
   error accountsAnswer = None ->
   data accountsAnswer = Some accountsData -> accountsData <> [] ->
   error postsAnswer = Some e ->
   posts (fst out) = posts st /\
   snd out = [SelectAccounts owner; SelectPosts (map id accountsData);
              ConsoleError "Error loading posts:" e]).
Proof.
  cbv zeta. unfold loadPosts.
  destruct (error accountsAnswer) as [e|];
    [|destruct (data accountsAnswer) as [[|a rest]|];
      [| destruct (error postsAnswer) as [e|] |]];
    cbn [fst snd loading filter posts];
    (split; [reflexivity|]); (split; [reflexivity|]);
    (split; [|split]); intros;
    repeat match goal with
           | H : _ \/ _ |- _ => destruct H
           | H : Some _ = Some _ |- _ => injection H as H; subst
           end;
    try discriminate; try congruence; auto.
Qed.

End PostsFacts.

(** * The [SocialAccounts] page *)

Module AccountsFacts.
Import Data AccountsPage.
Local Open Scope list_scope.

Ltac settle :=
  repeat (first [split | intro]);
  repeat match goal with
         | H : _ \/ _ |- _ => destruct H
         | H : False |- _ => destruct H
         | H : Some _ = Some _ |- _ => injection H as H; subst
         end;
  simpl in *; try discriminate; try congruence; auto.

Lemma loadAccounts_frame (owner : string) (answer : Selected SocialAccount)
    (st : State) :
  let out := loadAccounts owner answer st in
  loading (fst out) = false /\
  showAddForm (fst out) = showAddForm st /\
  formData (fst out) = formData st /\
  submitting (fst out) = submitting st /\
  length (List.filter is_select (snd out)) = 1%nat /\
  List.filter is_delete (snd out) = [] /\
  (forall e, error answer = Some e -> accounts (fst out) = accounts st).
Proof.
  cbv zeta. unfold loadAccounts.
  destruct (error answer); simpl; repeat split; discriminate.
Qed.

(** X18.  Removing an account asks first.  When the user declines,
    nothing is sent and nothing changes; when the store refuses the
    delete, the list is left as it was, no reload is made and the user
    is alerted; only after a successful delete is the list reloaded.  On
    no path is more than one delete sent, and the add form is never
    touched. *)
Theorem delete_asks_first
    (owner : string) (confirmed : bool) (deleteError : option string)
    (reload : Selected SocialAccount) (key : string) (st : State) :
  let out := handleDelete owner confirmed deleteError reload key st in
  (confirmed = false -> out = (st, [Confirm confirmText])) /\
  (forall e, confirmed = true -> deleteError = Some e ->
     fst out = st /\
     snd out = [Confirm confirmText; DeleteAccount key;
                ConsoleError "Error deleting account:" e;
                Alert "Failed to delete account. Please try again."]) /\
  (confirmed = true -> deleteError = None ->
     snd out = Confirm confirmText :: DeleteAccount key
               :: snd (loadAccounts owner reload st) /\
     accounts (fst out) = accounts (fst (loadAccounts owner reload st))) /\
  List.filter is_delete (snd out) =
    (if confirmed then [DeleteAccount key] else []) /\
  formData (fst out) = formData st /\
  showAddForm (fst out) = showAddForm st /\
  submitting (fst out) = submitting st.
Proof.
  cbv zeta. unfold handleDelete.
  destruct confirmed; simpl.
  - destruct deleteError as [e|]; simpl.
    + settle.
    + destruct (loadAccounts_frame owner reload st)
        as (_ & Hf & Hd & Hs & _ & Hdel & _).
      destruct (loadAccounts owner reload st) as [loaded issued] eqn:Hload.
      simpl in *. rewrite Hdel. settle.
  - settle.
Qed.


End AccountsFacts.

(** * [App], [ProtectedRoute] and [Layout] *)

Module ShellFacts.
Import Shell.

(** X20.  A page is on the screen only for a signed-in user whose
    session has finished loading, and it is then the page of the current
    view inside the layout; without a user the sign-in screen is shown
    even while the session loads; and [App] never renders nothing: the
    [null] of [ProtectedRoute] is not reached under [App]. *)
Theorem pages_need_user (ctx : AuthContext) (st : State) :
  App ctx st <> Nothing /\
  (user ctx = None -> App ctx st = AuthScreen) /\
  (forall v o children,
      App ctx st = Framed v o children ->
      user ctx <> None /\ loading ctx = false /\
      v = currentView st /\ o = sidebarOpen st /\
      children = renderView (currentView st)) /\
  (user ctx <> None -> loading ctx = false ->
   App ctx st = Framed (currentView st) (sidebarOpen st)
                       (renderView (currentView st))).
Proof.
  unfold App, ProtectedRoute, Layout.
  destruct (user ctx) as [u|], (loading ctx); simpl;
    repeat (first [split | intro]);
    try discriminate; try congruence.
Qed.

Lemma clicks_view (cs : list Click) (st : State) :
  currentView (clicks st cs) =
  match last_selected cs with
  | Some v => v
  | None => currentView st
  end.
Proof.
  unfold clicks. revert st.
  induction cs as [|c cs IH]; intros st; simpl; [reflexivity|].
  rewrite IH. destruct (last_selected cs); [reflexivity|].
  destruct c; reflexivity.
Qed.

(** X21.  Navigation: after any sequence of clicks in the layout, the
    current view is the item of the last menu click, or the view from
    before when no item was clicked (the chat, from the initial state);
    and a menu click always leaves the sidebar closed. *)
Theorem navigation_follows_last_click (cs : list Click) (st : State) :
  currentView (clicks st cs) =
    match last_selected cs with
    | Some v => v
    | None => currentView st
    end /\
  (last_selected cs = None -> currentView (clicks initial cs) = chat) /\
  (forall item, clicks st (cs ++ [MenuItem item]) =
                {| currentView := item; sidebarOpen := false |}).
Proof.
  split; [apply clicks_view|]. split.
  - intros H. now rewrite clicks_view, H.
  - intros item. unfold clicks. now rewrite fold_left_app.
Qed.

End ShellFacts.

(** * What the user sees of a submission *)

Module ChatScreen.
Import Chat ChatView.
Local Open Scope list_scope.

Lemma render_appended (st : State) (before : list ChatMessage)
    (last : ChatMessage) :
  loadingHistory st = false ->
  messages st = before ++ [last] ->
  render st =
  Conversation false (map bubble before ++ [bubble last])
               (loading st) (loading st)
               (loading st || (trim (inputMessage st) =? "")%string).
Proof.
  intros Hh Hm. unfold render. rewrite Hh, Hm, map_app, length_app. simpl.
  replace (length before + 1)%nat with (S (length before)) by lia.
  reflexivity.
Qed.

(** X22.  With the history loaded and a temporary id that is new to the
    list, an accepted submission shows at once the prompt, without a
    reply, under the entries already there, with the typing indicator
    on and the form disabled; when it has resolved the same prompt
    carries the relay's reply, or the error text if the submission
    failed, the indicator is off, and Send stays disabled until
    something is typed, the input having been cleared. *)
Theorem screen_follows_submission
    (uuid : string) (now : Z) (r : Fetched) (v : Verdict) (s : Session) :
  trim (inputMessage (view s)) <> ""%string ->
  loading (view s) = false ->
  loadingHistory (view s) = false ->
  (forall m, In m (messages (view s)) -> id m <> uuid) ->
  let earlier := map bubble (messages (view s)) in
  let prompt := trim (inputMessage (view s)) in
  render (view (sendMessage (view s) uuid now s)) =
    Conversation false (earlier ++ [{| prompt := prompt; reply := None |}])
                 true true true /\
  (Failure r v ->
   render (view (submission uuid now r v s)) =
     Conversation false
       (earlier ++ [{| prompt := prompt; reply := Some (Js.Str errorText) |}])
       false false true) /\
  (forall answer new_id at_time,
   assistantResponse r = Ok answer -> v = Commit new_id at_time ->
   render (view (submission uuid now r v s)) =
     Conversation false
       (earlier ++ [{| prompt := prompt; reply := Some answer |}])
       false false true).
Proof.
  intros Hinput Hl Hh Hfresh earlier prompt. subst earlier prompt.
  split; [|split].
  - rewrite ChatFacts.sendMessage_accepted by assumption.
    now rewrite (render_appended _ (messages (view s)) (tempMessage uuid now s)).
  - intros Hfail.
    destruct (ChatFacts.failure_cases r v Hfail)
      as [(e & Hr) | (answer & e & Hr & ->)].
    + rewrite (ChatFacts.submission_thrown uuid now r v s e) by assumption.
      cbn [view].
      rewrite (render_appended _ (messages (view s))
                 (with_response (tempMessage uuid now s) (Js.Str errorText)));
        [reflexivity | assumption |].
      cbn [messages]. now apply ChatFacts.replace_with_error_last.
    + rewrite (ChatFacts.submission_refused uuid now r s answer e)
        by assumption.
      cbn [view].
      rewrite (render_appended _ (messages (view s))
                 (with_response (tempMessage uuid now s) (Js.Str errorText)));
        [reflexivity | assumption |].
      cbn [messages]. now apply ChatFacts.replace_with_error_last.
  - intros answer new_id at_time Hr ->.
    rewrite (ChatFacts.submission_committed uuid now r s answer new_id at_time)
      by assumption.
    cbn [view].
    rewrite (render_appended _ (messages (view s))
               (snd (store_insert (store s) (payload s answer) new_id at_time)));
      [| assumption |].
    + unfold bubble at 2. cbn [store_insert snd response message payload
                               payload_message payload_response].
      now rewrite (ChatFacts.assistantResponse_truthy r answer Hr).
    + cbn [messages]. now apply ChatFacts.replace_with_saved_last.
Qed.

Lemma screen_follows_submission_witness :
  let s := run typing [LoadStarted None; LoadSettled 0] in
  let earlier := map bubble (messages (view s)) in
  let prompt := trim (inputMessage (view s)) in
  render (view (sendMessage (view s) "t1" 5 s)) =
    Conversation false (earlier ++ [{| prompt := prompt; reply := None |}])
                 true true true /\
  (Failure bad_gateway (Commit "s1" 9) ->
   render (view (submission "t1" 5 bad_gateway (Commit "s1" 9) s)) =
     Conversation false
       (earlier ++ [{| prompt := prompt; reply := Some (Js.Str errorText) |}])
       false false true) /\
  (forall answer new_id at_time,
   assistantResponse bad_gateway = Ok answer ->
   Commit "s1" 9 = Commit new_id at_time ->
   render (view (submission "t1" 5 bad_gateway (Commit "s1" 9) s)) =
     Conversation false
       (earlier ++ [{| prompt := prompt; reply := Some answer |}])
       false false true).
Proof.
  intros s.
  apply (screen_follows_submission "t1" 5 bad_gateway (Commit "s1" 9) s).
  - discriminate.
  - reflexivity.
  - reflexivity.
  - intros m [].
Defined.

Lemma loadingHistory_step (s : Session) (e : Event) :
  loadingHistory (view s) = false -> loadingHistory (view (step s e)) = false.
Proof.
  intros Hh.
  destruct e as [value | uuid now | calls | n r | n v | failure | n]; simpl;
    try exact Hh.
  - now rewrite (proj2 (proj2 (ChatFacts.sendMessage_frame (view s) uuid now s))).
  - now rewrite (proj2 (proj2 (ChatFacts.sendMessages_frame (view s) calls s))).
  - unfold relay_settled.
    destruct (nth_error (sending s) n) as [[t um | t p]|]; try exact Hh.
    now destruct (assistantResponse r).
  - unfold insert_settled.
    destruct (nth_error (sending s) n) as [[t um | t p]|]; try exact Hh.
    now destruct v.
  - unfold history_settled.
    destruct (nth_error (loads s) n) as [answer|]; [|exact Hh].
    now destruct (error answer).
Qed.

(** X23.  The loading screen does not come back: once the first
    [loadChatHistory] has settled, by rows or by an error, the
    conversation (and with it the form) stays on the screen through
    everything the session does afterwards, later reloads included. *)
Theorem loading_screen_never_returns
    (s : Session) (n : nat) (answer : SelectResult) (events : list Event) :
  nth_error (loads s) n = Some answer ->
  let settled := run (step s (LoadSettled n)) events in
  loadingHistory (view settled) = false /\
  render (view settled) <> LoadingChat.
Proof.
  intros Hn settled.
  assert (loadingHistory (view settled) = false) as Hh.
  { subst settled. unfold run.
    assert (loadingHistory (view (step s (LoadSettled n))) = false) as H0.
    { simpl. unfold history_settled. rewrite Hn.
      now destruct (error answer). }
    revert H0. generalize (step s (LoadSettled n)). 
    induction events as [|e events IH]; simpl; intros s0 H0; [exact H0|].
    apply IH. now apply loadingHistory_step. }
  split; [exact Hh|]. unfold render. rewrite Hh. discriminate.
Qed.

Lemma loading_screen_never_returns_witness :
  let s := run (init "u1" []) [LoadStarted (Some "offline")] in
  let settled := run (step s (LoadSettled 0))
                     [Typed "hi"; LoadStarted None] in
  loadingHistory (view settled) = false /\
  render (view settled) <> LoadingChat.
Proof.
  intros s.
  apply (loading_screen_never_returns s 0
           {| data := None; error := Some "offline" |}
           [Typed "hi"; LoadStarted None]).
  reflexivity.
Defined.

End ChatScreen.
